(** * Lazy matrix expressions (matrix.hpp): a shallow embedding

    The header defines a CRTP base [matrix_expr<E>] (a shape and a coordinate
    lookup), the dense storage [matrix<T>], and the expression nodes
    [matrix_sum], [matrix_sub] and [matrix_prod] (three forms).  Every
    template is embedded as a Rocq function that is parametric in the element
    types and in the arithmetic the C++ operators resolve to, as the
    templates are.

    Conventions of the embedding:
    - [size_t] is [N] with the 64-bit wrap-around of its arithmetic written
      out ([size_mul], [size_add]);
    - [std::vector<T>] is [list T]; the unchecked [operator[]] is [vec_get]
      and [vec_set], which are undefined outside the vector;
    - [assert] is compiled in (no NDEBUG): a failed assertion aborts;
    - a computation returns [Ok v], [Abort] (failed assertion) or [Undef]
      (undefined behaviour). *)

From Stdlib Require Import ZArith NArith List String Ascii Bool Lia.
From Stdlib Require Import DecimalString.
Import ListNotations.

Local Open Scope N_scope.

(** ** Outcomes *)

Inductive result (A : Type) : Type :=
| Ok (a : A)
| Abort
| Undef.

Arguments Ok {A} a.
Arguments Abort {A}.
Arguments Undef {A}.

Definition bind {A B : Type} (c : result A) (k : A -> result B) : result B :=
  match c with
  | Ok a => k a
  | Abort => Abort
  | Undef => Undef
  end.

Notation "x <- c ;; k" := (bind c (fun x => k))
  (at level 61, c at next level, right associativity).
Notation "c ;;; k" := (bind c (fun _ => k))
  (at level 61, right associativity).

(** [assert(b)] of <cassert>. *)
Definition assert (b : bool) : result unit :=
  if b then Ok tt else Abort.

(** ** size_t *)

Definition size_t := N.
Definition SIZE_MODULUS : N := 2 ^ 64.

Definition size_mul (a b : size_t) : size_t := (a * b) mod SIZE_MODULUS.
Definition size_add (a b : size_t) : size_t := (a + b) mod SIZE_MODULUS.

(** ** std::vector *)

(** [v[i]] read: no bounds check. *)
Definition vec_get {A : Type} (v : list A) (i : size_t) : result A :=
  match nth_error v (N.to_nat i) with
  | Some a => Ok a
  | None => Undef
  end.

Fixpoint replace_nth {A : Type} (n : nat) (v : list A) (a : A) : list A :=
  match v, n with
  | [], _ => []
  | _ :: tl, O => a :: tl
  | x :: tl, S k => x :: replace_nth k tl a
  end.

(** [v[i] = a]: no bounds check. *)
Definition vec_set {A : Type} (v : list A) (i : size_t) (a : A)
  : result (list A) :=
  if i <? N.of_nat (List.length v) then Ok (replace_nth (N.to_nat i) v a)
  else Undef.

(** [v.resize(n)] on an empty vector: [n] value-initialised elements. *)
Definition vec_resize {A : Type} (zero : A) (n : size_t) : list A :=
  repeat zero (N.to_nat n).

(** ** Loops *)

(** [count] iterations of [body], the index starting from [i]. *)
Fixpoint for_from {S : Type} (count : nat) (i : size_t)
  (body : size_t -> S -> result S) (s : S) : result S :=
  match count with
  | O => Ok s
  | Datatypes.S k => s' <- body i s ;; for_from k (i + 1) body s'
  end.

(** [for (size_t i = 0; i < n; i++) body]. *)
Definition for_upto {S : Type} (n : size_t)
  (body : size_t -> S -> result S) (s : S) : result S :=
  for_from (N.to_nat n) 0 body s.

(** ** The expression base class *)

(** [matrix_expr<E>]: the two protected members behind their accessors, and
    [at], which forwards to the derived class. *)
Record matrix_expr (V : Type) : Type := {
  num_rows : size_t;
  num_cols : size_t;
  at_ : size_t -> size_t -> result V
}.

Arguments num_rows {V} _.
Arguments num_cols {V} _.
Arguments at_ {V} _ _ _.

(** ** Dense storage *)

Record matrix (T : Type) : Type := {
  num_rows_ : size_t;
  num_cols_ : size_t;
  matrix_ : list T
}.

Arguments num_rows_ {T} _.
Arguments num_cols_ {T} _.
Arguments matrix_ {T} _.

Section Dense.
Context {T : Type}.

(** [matrix<T>(size_t rows, size_t columns, std::vector<T> data)]. *)
Definition matrix_of_data (rows columns : size_t) (data : list T)
  : result (matrix T) :=
  Ok {| num_rows_ := rows; num_cols_ := columns; matrix_ := data |}.

(** [T at(size_t row, size_t col) const]. *)
Definition matrix_at (m : matrix T) (row col : size_t) : result T :=
  assert (col <=? num_cols_ m) ;;;
  assert (row <=? num_rows_ m) ;;;
  vec_get (matrix_ m) (size_add (size_mul row (num_cols_ m)) col).

(** [T& at(size_t row, size_t col)], used as an assignment target. *)
Definition matrix_at_put (m : matrix T) (row col : size_t) (elem : T)
  : result (matrix T) :=
  assert (col <=? num_cols_ m) ;;;
  assert (row <=? num_rows_ m) ;;;
  data <- vec_set (matrix_ m)
            (size_add (size_mul row (num_cols_ m)) col) elem ;;
  Ok {| num_rows_ := num_rows_ m; num_cols_ := num_cols_ m;
        matrix_ := data |}.

(** A [matrix<T>] seen through its base class [matrix_expr<matrix<T>>]. *)
Definition as_expr (m : matrix T) : matrix_expr T :=
  {| num_rows := num_rows_ m; num_cols := num_cols_ m;
     at_ := matrix_at m |}.

(** The generic lambda of [max()], seen as the update of the captured
    [max_val]. *)
Definition max_step (gt : T -> T -> bool) (max_val cur_val : T) : T :=
  if gt max_val cur_val then max_val else cur_val.

(** [T max()]: the running maximum starts from [matrix_[0]], then
    [for_each] visits every element of the buffer. *)
Definition matrix_max (gt : T -> T -> bool) (m : matrix T) : result T :=
  max_val <- vec_get (matrix_ m) 0 ;;
  Ok (fold_left (max_step gt) (matrix_ m) max_val).

(** [matrix<T>(matrix_expr<E> const& expr)]: forces the evaluation.
    [static_cast_T] is the conversion to the element type and [zero] the
    value-initialised element [resize] fills the buffer with. *)
Definition matrix_of_expr {V : Type} (static_cast_T : V -> T) (zero : T)
  (expr : matrix_expr V) : result (matrix T) :=
  let rows := num_rows expr in
  let cols := num_cols expr in
  data <- for_upto rows
            (fun i data =>
               for_upto cols
                 (fun j data =>
                    v <- at_ expr i j ;;
                    vec_set data (size_add (size_mul i cols) j)
                      (static_cast_T v))
                 data)
            (vec_resize zero (size_mul rows cols)) ;;
  Ok {| num_rows_ := rows; num_cols_ := cols; matrix_ := data |}.

(** [matrix<T>(std::initializer_list<std::initializer_list<T>> list)]:
    the inner loop over the elements of one row. *)
Fixpoint put_row (m : matrix T) (cur_row cur_col : size_t) (row : list T)
  : result (matrix T) :=
  match row with
  | [] => Ok m
  | elem :: tl =>
      m' <- matrix_at_put m cur_row cur_col elem ;;
      put_row m' cur_row (cur_col + 1) tl
  end.

(** The outer loop over the rows. *)
Fixpoint put_rows (m : matrix T) (cur_row : size_t) (list : list (list T))
  : result (matrix T) :=
  match list with
  | [] => Ok m
  | row :: tl =>
      assert (N.of_nat (List.length row) =? num_cols_ m) ;;;
      m' <- put_row m cur_row 0 row ;;
      put_rows m' (cur_row + 1) tl
  end.

(** [list.begin()->size()] dereferences the end iterator of an empty
    list. *)
Definition matrix_of_list (zero : T) (list : list (list T))
  : result (matrix T) :=
  match list with
  | [] => Undef
  | first :: _ =>
      let rows := N.of_nat (List.length list) in
      let cols := N.of_nat (List.length first) in
      put_rows {| num_rows_ := rows; num_cols_ := cols;
                  matrix_ := vec_resize zero (size_mul rows cols) |}
        0 list
  end.

(** The buffer holds [rows * cols] elements. *)
Definition storage_invariant (m : matrix T) : Prop :=
  N.of_nat (List.length (matrix_ m)) = num_rows_ m * num_cols_ m.

(** A store that satisfies the invariant, with a buffer whose length
    is a [size_t] value, as every [std::vector] length is. *)
Definition well_formed (m : matrix T) : Prop :=
  storage_invariant m
  /\ N.of_nat (List.length (matrix_ m)) < SIZE_MODULUS.

End Dense.

(** ** Default construction

    [matrix<T>() = default] runs no code of its own: the two [size_t]
    members of the base class have no initialiser, so what they hold depends
    on the form of initialisation that calls the constructor. *)

Inductive member (A : Type) : Type :=
| Indeterminate
| Init (a : A).

Arguments Indeterminate {A}.
Arguments Init {A} a.

(** Reading a member; an indeterminate value must not be read. *)
Definition read {A : Type} (x : member A) : result A :=
  match x with
  | Init a => Ok a
  | Indeterminate => Undef
  end.

Inductive initialization : Type :=
| DefaultInit   (* [matrix<T> c;] with automatic storage *)
| ValueInit.    (* [matrix<T>()], [matrix<T>{}], or static storage *)

Record matrix_object (T : Type) : Type := {
  obj_num_rows_ : member size_t;
  obj_num_cols_ : member size_t;
  obj_matrix_ : list T
}.

Arguments obj_num_rows_ {T} _.
Arguments obj_num_cols_ {T} _.
Arguments obj_matrix_ {T} _.

(** Value-initialisation zero-initialises the object before the (trivial)
    member initialisation; default-initialisation does not. *)
Definition matrix_default (T : Type) (how : initialization)
  : matrix_object T :=
  match how with
  | DefaultInit =>
      {| obj_num_rows_ := Indeterminate; obj_num_cols_ := Indeterminate;
         obj_matrix_ := [] |}
  | ValueInit =>
      {| obj_num_rows_ := Init 0; obj_num_cols_ := Init 0;
         obj_matrix_ := [] |}
  end.

(** [num_rows()] and [num_cols()] on such an object. *)
Definition obj_num_rows {T : Type} (o : matrix_object T) : result size_t :=
  read (obj_num_rows_ o).
Definition obj_num_cols {T : Type} (o : matrix_object T) : result size_t :=
  read (obj_num_cols_ o).

(** ** Expression nodes *)

(** The type of the literal [0] that seeds the dot product, and so of the
    accumulator declared with [auto]. *)
Definition int := Z.

Section Nodes.
Context {V1 V2 R : Type}.

(** [matrix_sum<E1,E2>]; [plus] is the [operator+] of the operands'
    element types. *)
Definition matrix_sum (plus : V1 -> V2 -> R)
  (u : matrix_expr V1) (v : matrix_expr V2) : result (matrix_expr R) :=
  assert ((num_rows u =? num_rows v) && (num_cols u =? num_cols v)) ;;;
  Ok {| num_rows := num_rows u;
        num_cols := num_cols u;
        at_ := fun row col =>
                 a <- at_ u row col ;;
                 b <- at_ v row col ;;
                 Ok (plus a b) |}.

(** [matrix_sub<E1,E2>]. *)
Definition matrix_sub (minus : V1 -> V2 -> R)
  (u : matrix_expr V1) (v : matrix_expr V2) : result (matrix_expr R) :=
  assert ((num_rows u =? num_rows v) && (num_cols u =? num_cols v)) ;;;
  Ok {| num_rows := num_rows u;
        num_cols := num_cols u;
        at_ := fun row col =>
                 a <- at_ u row col ;;
                 b <- at_ v row col ;;
                 Ok (minus a b) |}.

(** [matrix_prod<E1,E2>], primary template.  [times] is the [operator*]
    of the element types; [plus_assign] is [dot_product += p] on the
    [int] accumulator. *)
Definition matrix_prod (times : V1 -> V2 -> R)
  (plus_assign : int -> R -> int)
  (lhs : matrix_expr V1) (rhs : matrix_expr V2)
  : result (matrix_expr int) :=
  let shared_dim := num_cols lhs in
  assert (num_cols lhs =? num_rows rhs) ;;;
  Ok {| num_rows := num_rows lhs;
        num_cols := num_cols rhs;
        at_ := fun row col =>
                 for_upto shared_dim
                   (fun i dot_product =>
                      a <- at_ lhs row i ;;
                      b <- at_ rhs i col ;;
                      Ok (plus_assign dot_product (times a b)))
                   0%Z |}.

(** [matrix_prod<E1,E2>] when [E1] is a scalar: [lhs_ * rhs_.at(row,col)]. *)
Definition matrix_prod_scalar_lhs (times : V1 -> V2 -> R)
  (lhs : V1) (rhs : matrix_expr V2) : result (matrix_expr R) :=
  Ok {| num_rows := num_rows rhs;
        num_cols := num_cols rhs;
        at_ := fun row col =>
                 b <- at_ rhs row col ;;
                 Ok (times lhs b) |}.

(** [matrix_prod<E1,E2>] when [E2] is a scalar: [rhs_ * lhs_.at(row,col)],
    the scalar written first. *)
Definition matrix_prod_scalar_rhs (times : V1 -> V2 -> R)
  (lhs : matrix_expr V2) (rhs : V1) : result (matrix_expr R) :=
  Ok {| num_rows := num_rows lhs;
        num_cols := num_cols lhs;
        at_ := fun row col =>
                 a <- at_ lhs row col ;;
                 Ok (times rhs a) |}.

(** The operator templates only forward to the node constructors. *)
Definition operator_plus := matrix_sum.
Definition operator_plus_assign := matrix_sum.
Definition operator_minus := matrix_sub.
Definition operator_minus_assign := matrix_sub.
Definition operator_times := matrix_prod.
Definition operator_times_assign := matrix_prod.
Definition operator_times_scalar_lhs := matrix_prod_scalar_lhs.
Definition operator_times_assign_scalar_lhs := matrix_prod_scalar_lhs.
Definition operator_times_scalar_rhs := matrix_prod_scalar_rhs.
Definition operator_times_assign_scalar_rhs := matrix_prod_scalar_rhs.

End Nodes.

(** ** Rendering *)

Definition newline : string := String "010"%char EmptyString.

(** [operator<<(std::ostream&, matrix_expr<E> const&)]; the stream is the
    text written so far and [show] is [operator<<] of the element type. *)
Definition print_expr {V : Type} (show : V -> string)
  (stream : string) (expr : matrix_expr V) : result string :=
  if num_rows expr =? 0 then Ok stream
  else
    for_upto (num_rows expr)
      (fun i stream =>
         stream <- for_upto (num_cols expr)
                     (fun j stream =>
                        v <- at_ expr i j ;;
                        Ok (stream ++ show v ++ " ")%string)
                     stream ;;
         Ok (stream ++ newline)%string)
      stream.

(** ** Integer element types

    Values are mathematical integers in the range of the type; every
    operation reduces its result to that range (two's complement). *)

Definition wrap_signed (width : Z) (z : Z) : Z :=
  ((z + 2 ^ (width - 1)) mod 2 ^ width - 2 ^ (width - 1))%Z.

Module CInt.
Definition width : Z := 32.
Definition of_Z (z : Z) : int := wrap_signed width z.
Definition add (x y : int) : int := of_Z (x + y).
Definition sub (x y : int) : int := of_Z (x - y).
Definition mul (x y : int) : int := of_Z (x * y).
Definition gt (x y : int) : bool := (x >? y)%Z.
(** [dot_product += p] with [p] an [int]. *)
Definition plus_assign (dot_product : int) (p : int) : int :=
  add dot_product p.
Definition show (x : int) : string := NilZero.string_of_int (Z.to_int x).
End CInt.

Module CLongLong.
Definition t := Z.
Definition width : Z := 64.
Definition of_Z (z : Z) : t := wrap_signed width z.
Definition add (x y : t) : t := of_Z (x + y).
Definition sub (x y : t) : t := of_Z (x - y).
Definition mul (x y : t) : t := of_Z (x * y).
Definition gt (x y : t) : bool := (x >? y)%Z.
(** [dot_product += p] with [p] a [long long]: the sum is formed in
    [long long] and converted back to the [int] accumulator. *)
Definition plus_assign (dot_product : int) (p : t) : int :=
  CInt.of_Z (add dot_product p).
(** [static_cast<long long>] of an [int]. *)
Definition of_int (x : int) : t := x.
End CLongLong.

(** Materialising into a store of the expression's own element type, which
    makes the conversion the identity. *)
Definition materialise {V : Type} (zero : V) (e : result (matrix_expr V))
  : result (matrix V) :=
  expr <- e ;; matrix_of_expr (fun x => x) zero expr.

(** ** Statements

    The operator templates take both operands as [E const&]: a call reads the
    two objects and returns the node by value.  [exec_binary op] is the
    expression statement [x op y;] run in a scope of named dense objects; it
    yields the scope after the statement and the node the call returned. *)

Section Statements.
Context {T R : Type}.

Definition scope := string -> option (matrix T).

Definition operand (sigma : scope) (x : string) : result (matrix_expr T) :=
  match sigma x with
  | Some m => Ok (as_expr m)
  | None => Undef
  end.

Definition exec_binary
  (op : matrix_expr T -> matrix_expr T -> result (matrix_expr R))
  (sigma : scope) (x y : string) : result (scope * matrix_expr R) :=
  lhs <- operand sigma x ;;
  rhs <- operand sigma y ;;
  node <- op lhs rhs ;;
  Ok (sigma, node).

(** [x op s;] with a scalar on the right. *)
Definition exec_scalar_rhs {S : Type}
  (op : matrix_expr T -> S -> result (matrix_expr R))
  (sigma : scope) (x : string) (s : S) : result (scope * matrix_expr R) :=
  lhs <- operand sigma x ;;
  node <- op lhs s ;;
  Ok (sigma, node).

End Statements.

(** ** Reference formulations *)

(** The indices [0, 1, ..., n-1]. *)
Definition N_range (n : N) : list N := map N.of_nat (seq 0 (N.to_nat n)).

(** The dot product in the specification's words: the sum over [t] in
    [[0, k)] of [a t * b t], accumulated from the additive identity of the
    result element type. *)
Definition dot_product_spec {V1 V2 R : Type} (zero : R) (plus : R -> R -> R)
  (times : V1 -> V2 -> R) (a : N -> V1) (b : N -> V2) (k : N) : R :=
  fold_left (fun acc t => plus acc (times (a t) (b t))) (N_range k) zero.

Definition join (l : list string) : string := fold_right append EmptyString l.

(** The rendering in the specification's words: row-major, every value
    followed by a space, every row terminated by a newline. *)
Definition render_row {V : Type} (show : V -> string) (value : N -> N -> V)
  (cols i : N) : string :=
  (join (map (fun j => show (value i j) ++ " ") (N_range cols)) ++ newline)%string.

Definition render_spec {V : Type} (show : V -> string) (value : N -> N -> V)
  (rows cols : N) : string :=
  join (map (render_row show value cols) (N_range rows)).

(** The element at [(i, j)] of a store, read straight from the buffer
    ([default] outside it). *)
Definition entry {T : Type} (default : T) (m : matrix T) (i j : N) : T :=
  nth (N.to_nat (i * num_cols_ m + j)) (matrix_ m) default.

(** A contract conformer of the given shape none of whose coordinates can
    be evaluated. *)
Definition stub (V : Type) (rows cols : size_t) : matrix_expr V :=
  {| num_rows := rows; num_cols := cols; at_ := fun _ _ => Undef |}.

(** The buffer of a materialisation in progress: [total] cells, those at a
    row-major position below [k] already holding the converted value of
    their coordinate. *)
Definition filled {T V : Type} (static_cast_T : V -> T)
  (value_at : N -> N -> result V) (cols total k : N) (data : list T) : Prop :=
  N.of_nat (List.length data) = total
  /\ forall i j, j < cols -> i * cols + j < k ->
       exists v, value_at i j = Ok v
                 /\ vec_get data (i * cols + j) = Ok (static_cast_T v).

(** ** Concrete stores used below *)

Definition A22 : matrix int :=
  {| num_rows_ := 2; num_cols_ := 2; matrix_ := [1; 2; 3; 4]%Z |}.
Definition B22 : matrix int :=
  {| num_rows_ := 2; num_cols_ := 2; matrix_ := [5; 6; 7; 8]%Z |}.
Definition empty_store : matrix int :=
  {| num_rows_ := 0; num_cols_ := 0; matrix_ := [] |}.
Definition five : matrix int :=
  {| num_rows_ := 1; num_cols_ := 1; matrix_ := [5]%Z |}.
Definition L11 : matrix CLongLong.t :=
  {| num_rows_ := 1; num_cols_ := 1; matrix_ := [65536]%Z |}.

(** The scope of [matrix<int> a = A22, b = B22;]. *)
Definition scope_ab : @scope int :=
  fun x =>
    if String.eqb x "a" then Some A22
    else if String.eqb x "b" then Some B22
    else None.

(** The node of [a + b] in that scope. *)
Definition sum_node_ab : matrix_expr int :=
  {| num_rows := 2;
     num_cols := 2;
     at_ := fun row col =>
              a <- matrix_at A22 row col ;;
              b <- matrix_at B22 row col ;;
              Ok (CInt.add a b) |}.

(** ** The demonstration program (matrixtest.cpp)

    The matrix computations of [main]; the clock readings and the lines
    that report them are left out. *)

(** [std::generate(first, last, g)] over [count] elements, for a generator
    [g] that updates the captured [n] and returns its new value. *)
Fixpoint generate (count : nat) (g : int -> int) (n : int)
  : list int * int :=
  match count with
  | O => ([], n)
  | Datatypes.S k =>
      let n' := g n in
      let (tl, n_end) := generate k g n' in
      (n' :: tl, n_end)
  end.

Definition SIZE : int := 20%Z.

Record main_run : Type := {
  printed : string;        (* [cout << "A\n" << a << "B\n" << b] *)
  c_sum : matrix int;      (* [c = a + b] *)
  c_difference : matrix int;  (* [c = a - b] *)
  c_scaled : matrix int;   (* [c = a * scalar] *)
  c_product : matrix int   (* [c = a * b] *)
}.

Definition main : result main_run :=
  let n := SIZE in
  let (va, n) :=
    generate (Z.to_nat (CInt.mul SIZE SIZE)) (fun n => CInt.sub n 3%Z) n in
  let (vb, n) :=
    generate (Z.to_nat (CInt.mul SIZE SIZE)) (fun n => CInt.add n 11%Z) n in
  a <- matrix_of_data (Z.to_N SIZE) (Z.to_N SIZE) va ;;
  b <- matrix_of_data (Z.to_N SIZE) (Z.to_N SIZE) vb ;;
  let scalar := 123%Z in
  out <- print_expr CInt.show (String "A" newline) (as_expr a) ;;
  out <- print_expr CInt.show (out ++ String "B" newline) (as_expr b) ;;
  c1 <- materialise 0%Z (operator_plus CInt.add (as_expr a) (as_expr b)) ;;
  c2 <- materialise 0%Z (operator_minus CInt.sub (as_expr a) (as_expr b)) ;;
  c3 <- materialise 0%Z
          (operator_times_scalar_rhs CInt.mul (as_expr a) scalar) ;;
  c4 <- materialise 0%Z
          (operator_times CInt.mul CInt.plus_assign (as_expr a) (as_expr b)) ;;
  Ok {| printed := out; c_sum := c1; c_difference := c2; c_scaled := c3;
        c_product := c4 |}.

(** The exact integers the program's matrices are meant to hold, by linear
    position [k = 20 i + j]. *)
Definition Z_range (n : nat) : list Z := map Z.of_nat (seq 0 n).
Definition a_exact (k : Z) : Z := (17 - 3 * k)%Z.
Definition b_exact (k : Z) : Z := (11 * k - 1169)%Z.
Definition product_exact (k : Z) : Z :=
  fold_left
    (fun acc t =>
       (acc + a_exact (20 * (k / 20) + t) * b_exact (20 * t + k mod 20))%Z)
    (Z_range 20) 0%Z.

(** * Properties *)

(** ** Outcomes and loops *)

Lemma bind_ok {A B : Type} (c : result A) (k : A -> result B) (b : B) :
  bind c k = Ok b -> exists a, c = Ok a /\ k a = Ok b.
Proof.
  destruct c as [a | |]; simpl; intros H; try discriminate.
  exists a; split; [reflexivity | exact H].
Qed.

Lemma for_from_invariant {S : Type} (P : N -> S -> Prop)
  (body : size_t -> S -> result S) (count : nat) :
  forall (i : size_t) (s : S),
    P i s ->
    (forall k t, i <= k < i + N.of_nat count -> P k t ->
                 exists t', body k t = Ok t' /\ P (k + 1) t') ->
    exists s', for_from count i body s = Ok s' /\ P (i + N.of_nat count) s'.
Proof.
  induction count as [| n IH]; intros i s Hs Hstep.
  - exists s. split; [reflexivity |].
    replace (i + N.of_nat 0) with i by lia. exact Hs.
  - destruct (Hstep i s) as [t [Hb Ht]]; [lia | exact Hs |].
    destruct (IH (i + 1) t Ht) as [s' [Hrun Hs']].
    + intros k u Hk Hu. apply Hstep; [lia | exact Hu].
    + exists s'. split.
      * simpl. rewrite Hb. simpl. exact Hrun.
      * replace (i + N.of_nat (Datatypes.S n)) with (i + 1 + N.of_nat n)
          by lia.
        exact Hs'.
Qed.

Lemma for_upto_invariant {S : Type} (P : N -> S -> Prop)
  (body : size_t -> S -> result S) (n : size_t) (s : S) :
  P 0 s ->
  (forall k t, k < n -> P k t -> exists t', body k t = Ok t' /\ P (k + 1) t') ->
  exists s', for_upto n body s = Ok s' /\ P n s'.
Proof.
  intros Hs Hstep. unfold for_upto.
  destruct (for_from_invariant P body (N.to_nat n) 0 s Hs) as [s' [Hrun Hs']].
  - intros k t Hk Ht. apply Hstep; [lia | exact Ht].
  - exists s'. split; [exact Hrun |].
    replace (0 + N.of_nat (N.to_nat n)) with n in Hs' by lia. exact Hs'.
Qed.

Lemma for_from_preserves {S : Type} (Q : S -> Prop)
  (body : size_t -> S -> result S) (count : nat) :
  (forall k t t', body k t = Ok t' -> Q t -> Q t') ->
  forall (i : size_t) (s s' : S),
    for_from count i body s = Ok s' -> Q s -> Q s'.
Proof.
  intros Hbody. induction count as [| n IH]; intros i s s' Hrun Hs.
  - simpl in Hrun. injection Hrun as <-. exact Hs.
  - simpl in Hrun. apply bind_ok in Hrun. destruct Hrun as [t [Hb Hrest]].
    apply (IH (i + 1) t s' Hrest). exact (Hbody i s t Hb Hs).
Qed.

(** ** Vectors *)

Lemma replace_nth_length {A : Type} (v : list A) :
  forall (n : nat) (a : A), List.length (replace_nth n v a) = List.length v.
Proof.
  induction v as [| x tl IH]; intros [| k] a; simpl; try reflexivity.
  rewrite IH. reflexivity.
Qed.

Lemma replace_nth_same {A : Type} (v : list A) :
  forall (n : nat) (a : A),
    (n < List.length v)%nat -> nth_error (replace_nth n v a) n = Some a.
Proof.
  induction v as [| x tl IH]; intros [| k] a Hn; simpl in *; try lia.
  - reflexivity.
  - apply IH. lia.
Qed.

Lemma replace_nth_other {A : Type} (v : list A) :
  forall (n k : nat) (a : A),
    k <> n -> nth_error (replace_nth n v a) k = nth_error v k.
Proof.
  induction v as [| x tl IH]; intros [| n] [| k] a Hk; simpl;
    try reflexivity; try congruence.
  apply IH. congruence.
Qed.

Lemma vec_set_defined {A : Type} (v : list A) (i : size_t) (a : A) :
  i < N.of_nat (List.length v) ->
  vec_set v i a = Ok (replace_nth (N.to_nat i) v a).
Proof.
  intros Hi. unfold vec_set.
  destruct (N.ltb_spec i (N.of_nat (List.length v))); [reflexivity | lia].
Qed.

Lemma vec_set_length {A : Type} (v v' : list A) (i : size_t) (a : A) :
  vec_set v i a = Ok v' -> List.length v' = List.length v.
Proof.
  unfold vec_set. destruct (i <? N.of_nat (List.length v)); [| discriminate].
  intros H. injection H as <-. apply replace_nth_length.
Qed.

Lemma vec_get_set_same {A : Type} (v : list A) (i : size_t) (a : A) :
  i < N.of_nat (List.length v) ->
  vec_get (replace_nth (N.to_nat i) v a) i = Ok a.
Proof.
  intros Hi. unfold vec_get. rewrite replace_nth_same; [reflexivity | lia].
Qed.

Lemma vec_get_set_other {A : Type} (v : list A) (i k : size_t) (a : A) :
  k <> i -> vec_get (replace_nth (N.to_nat i) v a) k = vec_get v k.
Proof.
  intros Hk. unfold vec_get. rewrite replace_nth_other; [reflexivity | lia].
Qed.

Lemma vec_get_defined {A : Type} (v : list A) (i : size_t) :
  i < N.of_nat (List.length v) -> exists a, vec_get v i = Ok a.
Proof.
  intros Hi. unfold vec_get.
  destruct (nth_error v (N.to_nat i)) as [a |] eqn:E.
  - exists a. reflexivity.
  - apply nth_error_None in E. lia.
Qed.

(** ** Row-major addressing *)

Lemma size_index_small (i j cols : size_t) :
  i * cols + j < SIZE_MODULUS ->
  size_add (size_mul i cols) j = i * cols + j.
Proof.
  intros H. unfold size_add, size_mul.
  assert (Hm : i * cols < SIZE_MODULUS) by lia.
  rewrite (N.mod_small (i * cols)) by exact Hm.
  apply N.mod_small. exact H.
Qed.

Lemma row_major_bound (i j rows cols : size_t) :
  i < rows -> j < cols -> i * cols + j < rows * cols.
Proof. intros Hi Hj. nia. Qed.

Lemma row_major_injective (i j i' j' cols : size_t) :
  j < cols -> j' < cols -> i * cols + j = i' * cols + j' ->
  i = i' /\ j = j'.
Proof.
  intros Hj Hj' H.
  destruct (N.lt_trichotomy i i') as [Hlt | [Heq | Hgt]].
  - assert (Hm : (i + 1) * cols <= i' * cols)
      by (apply N.mul_le_mono_r; lia).
    rewrite N.mul_add_distr_r in Hm. lia.
  - subst i'. split; [reflexivity | lia].
  - assert (Hm : (i' + 1) * cols <= i * cols)
      by (apply N.mul_le_mono_r; lia).
    rewrite N.mul_add_distr_r in Hm. lia.
Qed.

(** ** Dense storage *)

Lemma matrix_at_in_range {T : Type} (m : matrix T) (i j : size_t) :
  num_rows_ m * num_cols_ m < SIZE_MODULUS ->
  i < num_rows_ m -> j < num_cols_ m ->
  matrix_at m i j = vec_get (matrix_ m) (i * num_cols_ m + j).
Proof.
  intros Hfit Hi Hj. unfold matrix_at.
  destruct (N.leb_spec j (num_cols_ m)); [| lia].
  destruct (N.leb_spec i (num_rows_ m)); [| lia].
  simpl. rewrite size_index_small; [reflexivity |].
  pose proof (row_major_bound i j _ _ Hi Hj). lia.
Qed.

Lemma matrix_at_defined {T : Type} (m : matrix T) (i j : size_t) :
  well_formed m -> i < num_rows_ m -> j < num_cols_ m ->
  exists a, matrix_at m i j = Ok a.
Proof.
  intros [Hinv Hfit] Hi Hj. unfold storage_invariant in Hinv.
  rewrite matrix_at_in_range by (try assumption; lia).
  apply vec_get_defined.
  pose proof (row_major_bound i j _ _ Hi Hj). lia.
Qed.

(** ** Materialisation *)

Lemma filled_step {T V : Type} (static_cast_T : V -> T)
  (value_at : N -> N -> result V) (cols total i j : N) (data : list T)
  (v : V) :
  j < cols -> i * cols + j < total -> value_at i j = Ok v ->
  filled static_cast_T value_at cols total (i * cols + j) data ->
  filled static_cast_T value_at cols total (i * cols + (j + 1))
    (replace_nth (N.to_nat (i * cols + j)) data (static_cast_T v)).
Proof.
  intros Hj Hlt Hv [Hlen Hcells]. split.
  - rewrite replace_nth_length. exact Hlen.
  - intros i' j' Hj' Hk.
    destruct (N.eq_dec (i' * cols + j') (i * cols + j)) as [E | E].
    + destruct (row_major_injective _ _ _ _ _ Hj' Hj E) as [-> ->].
      exists v. split; [exact Hv |].
      apply vec_get_set_same. lia.
    + rewrite vec_get_set_other by exact E.
      apply Hcells; [exact Hj' | lia].
Qed.

(** Materialising an expression whose element count fits [size_t] and whose
    in-range coordinates all evaluate. *)
Lemma matrix_of_expr_spec {T V : Type} (static_cast_T : V -> T) (zero : T)
  (expr : matrix_expr V) :
  num_rows expr * num_cols expr < SIZE_MODULUS ->
  (forall i j, i < num_rows expr -> j < num_cols expr ->
               exists v, at_ expr i j = Ok v) ->
  exists m,
    matrix_of_expr static_cast_T zero expr = Ok m
    /\ num_rows_ m = num_rows expr
    /\ num_cols_ m = num_cols expr
    /\ well_formed m
    /\ forall i j, i < num_rows expr -> j < num_cols expr ->
         exists v, at_ expr i j = Ok v
                   /\ matrix_at m i j = Ok (static_cast_T v).
Proof.
  intros Hfit Hat. unfold matrix_of_expr.
  set (rows := num_rows expr) in *. set (cols := num_cols expr) in *.
  set (total := rows * cols) in *.
  destruct (for_upto_invariant
              (fun i data =>
                 filled static_cast_T (at_ expr) cols total (i * cols) data)
              (fun i data =>
                 for_upto cols
                   (fun j data =>
                      v <- at_ expr i j ;;
                      vec_set data (size_add (size_mul i cols) j)
                        (static_cast_T v))
                   data)
              rows (vec_resize zero (size_mul rows cols)))
    as [data [Hrun [Hlen Hcells]]].
  - split.
    + unfold vec_resize. rewrite repeat_length. unfold size_mul.
      rewrite N.mod_small by exact Hfit. fold total. lia.
    + intros i j _ Hk. lia.
  - intros i data Hi Hinv.
    destruct (for_upto_invariant
                (fun j data =>
                   filled static_cast_T (at_ expr) cols total
                     (i * cols + j) data)
                (fun j data =>
                   v <- at_ expr i j ;;
                   vec_set data (size_add (size_mul i cols) j)
                     (static_cast_T v))
                cols data) as [data' [Hrun' Hinv']].
    + rewrite N.add_0_r. exact Hinv.
    + intros j d Hj Hd.
      assert (Hidx : i * cols + j < total)
        by (apply row_major_bound; assumption).
      destruct (Hat i j Hi Hj) as [v Hv].
      rewrite Hv. simpl.
      rewrite size_index_small by lia.
      rewrite vec_set_defined by (destruct Hd as [Hl _]; lia).
      eexists. split; [reflexivity |].
      apply filled_step; assumption.
    + exists data'. split; [exact Hrun' |].
      replace ((i + 1) * cols) with (i * cols + cols) by lia. exact Hinv'.
  - rewrite Hrun. simpl. eexists. split; [reflexivity |].
    simpl. repeat split.
    + simpl. fold total in Hlen |- *. exact Hlen.
    + simpl. lia.
    + intros i j Hi Hj.
      rewrite matrix_at_in_range by (simpl; assumption).
      simpl. apply Hcells; [exact Hj |].
      apply row_major_bound; assumption.
Qed.

(** ** Node constructors *)

Section Construction.
Context {V1 V2 R : Type}.
Variables (u : matrix_expr V1) (v : matrix_expr V2).

Lemma same_shape_true :
  num_rows u = num_rows v -> num_cols u = num_cols v ->
  (num_rows u =? num_rows v) && (num_cols u =? num_cols v) = true.
Proof. intros -> ->. rewrite !N.eqb_refl. reflexivity. Qed.

Lemma same_shape_false :
  (num_rows u, num_cols u) <> (num_rows v, num_cols v) ->
  (num_rows u =? num_rows v) && (num_cols u =? num_cols v) = false.
Proof.
  intros Hne.
  destruct (N.eqb_spec (num_rows u) (num_rows v)) as [Er | Er];
    [| reflexivity].
  destruct (N.eqb_spec (num_cols u) (num_cols v)) as [Ec | Ec];
    [| reflexivity].
  exfalso. apply Hne. rewrite Er, Ec. reflexivity.
Qed.

End Construction.

(** ** Sums and differences *)

(** A node that combines the two operands coordinate by coordinate: the
    common shape of [matrix_sum] and [matrix_sub]. *)
Lemma pointwise_materialise {T1 T2 R T : Type} (op : T1 -> T2 -> R)
  (static_cast_T : R -> T) (zero : T) (A : matrix T1) (B : matrix T2) :
  well_formed A -> well_formed B ->
  num_rows_ A = num_rows_ B -> num_cols_ A = num_cols_ B ->
  exists M,
    matrix_of_expr static_cast_T zero
      {| num_rows := num_rows_ A;
         num_cols := num_cols_ A;
         at_ := fun row col =>
                  a <- matrix_at A row col ;;
                  b <- matrix_at B row col ;;
                  Ok (op a b) |} = Ok M
    /\ num_rows_ M = num_rows_ A
    /\ num_cols_ M = num_cols_ A
    /\ well_formed M
    /\ forall i j, i < num_rows_ A -> j < num_cols_ A ->
         exists a b, matrix_at A i j = Ok a
                     /\ matrix_at B i j = Ok b
                     /\ matrix_at M i j = Ok (static_cast_T (op a b)).
Proof.
  intros HA HB Hr Hc.
  assert (Hcell : forall i j, i < num_rows_ A -> j < num_cols_ A ->
            exists a b, matrix_at A i j = Ok a /\ matrix_at B i j = Ok b).
  { intros i j Hi Hj.
    destruct (matrix_at_defined A i j HA Hi Hj) as [a Ha].
    destruct (matrix_at_defined B i j HB) as [b Hb]; [lia | lia |].
    exists a, b. split; assumption. }
  match goal with
  | |- exists M, matrix_of_expr _ _ ?e = _ /\ _ =>
      destruct (matrix_of_expr_spec static_cast_T zero e)
        as [M [Hrun [HMr [HMc [Hwf Hcells]]]]]
  end.
  - simpl. destruct HA as [Hinv Hlen]. unfold storage_invariant in Hinv. lia.
  - simpl. intros i j Hi Hj.
    destruct (Hcell i j Hi Hj) as [a [b [Ha Hb]]].
    rewrite Ha, Hb. simpl. eexists. reflexivity.
  - exists M. simpl in *.
    split; [exact Hrun |]. split; [exact HMr |]. split; [exact HMc |].
    split; [exact Hwf |].
    intros i j Hi Hj.
    destruct (Hcell i j Hi Hj) as [a [b [Ha Hb]]].
    destruct (Hcells i j Hi Hj) as [x [Hx HM]].
    rewrite Ha, Hb in Hx. simpl in Hx. injection Hx as <-.
    exists a, b. repeat split; assumption.
Qed.

(** The same with the conversion of the materialising constructor left
    general. *)
Lemma sum_difference_cast {T1 T2 R T : Type} (plus minus : T1 -> T2 -> R)
  (static_cast_T : R -> T) (zero : T) (A : matrix T1) (B : matrix T2) :
  well_formed A -> well_formed B ->
  num_rows_ A = num_rows_ B -> num_cols_ A = num_cols_ B ->
  exists S D,
    (e <- operator_plus plus (as_expr A) (as_expr B) ;;
     matrix_of_expr static_cast_T zero e) = Ok S
    /\ (e <- operator_minus minus (as_expr A) (as_expr B) ;;
        matrix_of_expr static_cast_T zero e) = Ok D
    /\ forall i j, i < num_rows_ A -> j < num_cols_ A ->
         exists a b, matrix_at A i j = Ok a
                     /\ matrix_at B i j = Ok b
                     /\ matrix_at S i j = Ok (static_cast_T (plus a b))
                     /\ matrix_at D i j = Ok (static_cast_T (minus a b)).
Proof.
  intros HA HB Hr Hc.
  destruct (pointwise_materialise plus static_cast_T zero A B HA HB Hr Hc)
    as [S [HS [_ [_ [_ HScell]]]]].
  destruct (pointwise_materialise minus static_cast_T zero A B HA HB Hr Hc)
    as [D [HD [_ [_ [_ HDcell]]]]].
  exists S, D.
  unfold operator_plus, operator_minus, matrix_sum, matrix_sub.
  rewrite (same_shape_true (as_expr A) (as_expr B) Hr Hc). simpl.
  split; [exact HS |]. split; [exact HD |].
  intros i j Hi Hj.
  destruct (HScell i j Hi Hj) as [a [b [Ha [Hb HSij]]]].
  destruct (HDcell i j Hi Hj) as [a' [b' [Ha' [Hb' HDij]]]].
  rewrite Ha in Ha'. rewrite Hb in Hb'.
  injection Ha' as <-. injection Hb' as <-.
  exists a, b. repeat split; assumption.
Qed.

(** C2: for dense [A] and [B] of equal shape, materialising [A + B] gives a
    store that holds [A.at(i,j) + B.at(i,j)] at every coordinate, and
    materialising [A - B] one that holds [A.at(i,j) - B.at(i,j)]. *)
Theorem sum_difference_correct {T1 T2 R : Type} (plus minus : T1 -> T2 -> R)
  (zero : R) (A : matrix T1) (B : matrix T2) :
  well_formed A -> well_formed B ->
  num_rows_ A = num_rows_ B -> num_cols_ A = num_cols_ B ->
  exists S D,
    materialise zero (operator_plus plus (as_expr A) (as_expr B)) = Ok S
    /\ materialise zero (operator_minus minus (as_expr A) (as_expr B)) = Ok D
    /\ forall i j, i < num_rows_ A -> j < num_cols_ A ->
         exists a b, matrix_at A i j = Ok a
                     /\ matrix_at B i j = Ok b
                     /\ matrix_at S i j = Ok (plus a b)
                     /\ matrix_at D i j = Ok (minus a b).
Proof.
  intros HA HB Hr Hc. unfold materialise.
  exact (sum_difference_cast plus minus (fun x => x) zero A B HA HB Hr Hc).
Qed.

Lemma A22_well_formed : well_formed A22.
Proof. split; [reflexivity | reflexivity]. Qed.

Lemma B22_well_formed : well_formed B22.
Proof. split; reflexivity. Qed.

Lemma sum_difference_correct_witness :
  exists S D,
    materialise 0%Z (operator_plus CInt.add (as_expr A22) (as_expr B22)) = Ok S
    /\ materialise 0%Z (operator_minus CInt.sub (as_expr A22) (as_expr B22))
       = Ok D
    /\ forall i j, i < 2 -> j < 2 ->
         exists a b, matrix_at A22 i j = Ok a
                     /\ matrix_at B22 i j = Ok b
                     /\ matrix_at S i j = Ok (CInt.add a b)
                     /\ matrix_at D i j = Ok (CInt.sub a b).
Proof.
  apply (sum_difference_correct CInt.add CInt.sub 0%Z A22 B22).
  - split; reflexivity.
  - split; reflexivity.
  - reflexivity.
  - reflexivity.
Defined.

(** ** Construction-time checks *)

(** C3: a Sum or Difference node over operands of different shapes, and a
    Matrix x Matrix Product node over operands with
    [lhs.num_cols() <> rhs.num_rows()], abort in the constructor; with
    compatible operands the constructor returns the node, whose shape is the
    shared shape (Sum, Difference) or [(lhs.num_rows(), rhs.num_cols())]
    (Product).  The operands are arbitrary conformers, among them those
    whose every lookup is undefined: the constructor evaluates none. *)
Theorem construction_checks_shapes {V1 V2 R : Type}
  (plus minus times : V1 -> V2 -> R) (plus_assign : int -> R -> int)
  (u : matrix_expr V1) (v : matrix_expr V2) :
  ((num_rows u, num_cols u) <> (num_rows v, num_cols v) ->
   matrix_sum plus u v = Abort /\ matrix_sub minus u v = Abort)
  /\ (num_cols u <> num_rows v ->
      matrix_prod times plus_assign u v = Abort)
  /\ ((num_rows u, num_cols u) = (num_rows v, num_cols v) ->
      exists s d,
        matrix_sum plus u v = Ok s /\ matrix_sub minus u v = Ok d
        /\ (num_rows s, num_cols s) = (num_rows u, num_cols u)
        /\ (num_rows d, num_cols d) = (num_rows u, num_cols u))
  /\ (num_cols u = num_rows v ->
      exists p,
        matrix_prod times plus_assign u v = Ok p
        /\ (num_rows p, num_cols p) = (num_rows u, num_cols v)).
Proof.
  split; [| split; [| split]].
  - intros Hne. unfold matrix_sum, matrix_sub.
    rewrite (same_shape_false u v Hne). split; reflexivity.
  - intros Hne. unfold matrix_prod.
    destruct (N.eqb_spec (num_cols u) (num_rows v)) as [E | E];
      [contradiction | reflexivity].
  - intros Heq. injection Heq as Hr Hc. unfold matrix_sum, matrix_sub.
    rewrite (same_shape_true u v Hr Hc). simpl.
    eexists. eexists.
    split; [reflexivity |]. split; [reflexivity |].
    split; reflexivity.
  - intros Heq. unfold matrix_prod. rewrite Heq, N.eqb_refl. simpl.
    eexists. split; reflexivity.
Qed.

Lemma construction_checks_shapes_witness :
  (matrix_sum CInt.add (stub int 2 3) (stub int 3 2) = Abort
   /\ matrix_sub CInt.sub (stub int 2 3) (stub int 3 2) = Abort)
  /\ matrix_prod CInt.mul CInt.plus_assign (stub int 2 3) (stub int 4 2)
     = Abort
  /\ (exists s d,
        matrix_sum CInt.add (stub int 2 3) (stub int 2 3) = Ok s
        /\ matrix_sub CInt.sub (stub int 2 3) (stub int 2 3) = Ok d
        /\ (num_rows s, num_cols s) = (2, 3)
        /\ (num_rows d, num_cols d) = (2, 3))
  /\ (exists p,
        matrix_prod CInt.mul CInt.plus_assign (stub int 2 3) (stub int 3 2)
        = Ok p
        /\ (num_rows p, num_cols p) = (2, 2)).
Proof.
  split; [| split; [| split]].
  - apply (construction_checks_shapes CInt.add CInt.sub CInt.mul
             CInt.plus_assign (stub int 2 3) (stub int 3 2)).
    simpl. discriminate.
  - apply (construction_checks_shapes CInt.add CInt.sub CInt.mul
             CInt.plus_assign (stub int 2 3) (stub int 4 2)).
    simpl. discriminate.
  - apply (construction_checks_shapes CInt.add CInt.sub CInt.mul
             CInt.plus_assign (stub int 2 3) (stub int 2 3)).
    reflexivity.
  - apply (construction_checks_shapes CInt.add CInt.sub CInt.mul
             CInt.plus_assign (stub int 2 3) (stub int 3 2)).
    reflexivity.
Defined.

(** ** Scalar products *)

(** C6: for a scalar [s] and a dense [A], materialising [s * A] and
    materialising [A * s] give the same store, of the shape of [A], which
    holds [s * A.at(i,j)] at every coordinate. *)
Theorem scalar_product_correct {S V R : Type} (times : S -> V -> R)
  (zero : R) (s : S) (A : matrix V) :
  well_formed A ->
  exists M,
    materialise zero (operator_times_scalar_lhs times s (as_expr A)) = Ok M
    /\ materialise zero (operator_times_scalar_rhs times (as_expr A) s) = Ok M
    /\ num_rows_ M = num_rows_ A
    /\ num_cols_ M = num_cols_ A
    /\ forall i j, i < num_rows_ A -> j < num_cols_ A ->
         exists a, matrix_at A i j = Ok a
                   /\ matrix_at M i j = Ok (times s a).
Proof.
  intros HA.
  unfold materialise, operator_times_scalar_lhs, operator_times_scalar_rhs,
    matrix_prod_scalar_lhs, matrix_prod_scalar_rhs. simpl.
  match goal with
  | |- exists M, matrix_of_expr _ _ ?e = _ /\ _ =>
      destruct (matrix_of_expr_spec (fun x : R => x) zero e)
        as [M [Hrun [HMr [HMc [_ Hcells]]]]]
  end.
  - simpl. destruct HA as [Hinv Hlen]. unfold storage_invariant in Hinv. lia.
  - simpl. intros i j Hi Hj.
    destruct (matrix_at_defined A i j HA Hi Hj) as [a Ha].
    rewrite Ha. simpl. eexists. reflexivity.
  - exists M. simpl in *.
    split; [exact Hrun |]. split; [exact Hrun |].
    split; [exact HMr |]. split; [exact HMc |].
    intros i j Hi Hj.
    destruct (matrix_at_defined A i j HA Hi Hj) as [a Ha].
    destruct (Hcells i j Hi Hj) as [x [Hx HM]].
    rewrite Ha in Hx. simpl in Hx. injection Hx as <-.
    exists a. split; assumption.
Qed.

Lemma scalar_product_correct_witness :
  well_formed A22
  /\ exists M,
       materialise 0%Z (operator_times_scalar_lhs CInt.mul 10%Z (as_expr A22))
       = Ok M
       /\ materialise 0%Z
            (operator_times_scalar_rhs CInt.mul (as_expr A22) 10%Z) = Ok M
       /\ num_rows_ M = 2
       /\ num_cols_ M = 2
       /\ forall i j, i < 2 -> j < 2 ->
            exists a, matrix_at A22 i j = Ok a
                      /\ matrix_at M i j = Ok (CInt.mul 10%Z a).
Proof.
  split.
  - split; reflexivity.
  - apply (scalar_product_correct CInt.mul 0%Z 10%Z A22).
    split; reflexivity.
Defined.

(** ** Matrix products *)

Lemma N_range_succ (k : N) : N_range (k + 1) = N_range k ++ [k].
Proof.
  unfold N_range.
  replace (N.to_nat (k + 1)) with (Datatypes.S (N.to_nat k)) by lia.
  rewrite seq_S, map_app. simpl.
  rewrite N2Nat.id. reflexivity.
Qed.

Lemma matrix_at_entry {T : Type} (default : T) (m : matrix T) (i j : size_t) :
  well_formed m -> i < num_rows_ m -> j < num_cols_ m ->
  matrix_at m i j = Ok (entry default m i j).
Proof.
  intros [Hinv Hlen] Hi Hj. unfold storage_invariant in Hinv.
  rewrite matrix_at_in_range by (try assumption; lia).
  unfold vec_get, entry.
  pose proof (row_major_bound i j _ _ Hi Hj) as Hb.
  rewrite (nth_error_nth' (matrix_ m) default) by lia.
  reflexivity.
Qed.

Lemma matrix_prod_compatible {V1 V2 R : Type}
  (times : V1 -> V2 -> R) (plus_assign : int -> R -> int)
  (u : matrix_expr V1) (v : matrix_expr V2) :
  num_cols u = num_rows v ->
  exists p,
    matrix_prod times plus_assign u v = Ok p
    /\ num_rows p = num_rows u /\ num_cols p = num_cols v.
Proof.
  intros Heq. unfold matrix_prod. rewrite Heq, N.eqb_refl. simpl.
  eexists. split; [reflexivity |]. split; reflexivity.
Qed.

(** What [matrix_prod::at] computes over two dense operands: the loop
    accumulates into the [int] that was seeded with the literal [0]. *)
Lemma matrix_prod_at {T1 T2 R : Type} (times : T1 -> T2 -> R)
  (plus_assign : int -> R -> int) (d1 : T1) (d2 : T2)
  (A : matrix T1) (B : matrix T2) (p : matrix_expr int) (i j : size_t) :
  well_formed A -> well_formed B ->
  matrix_prod times plus_assign (as_expr A) (as_expr B) = Ok p ->
  i < num_rows_ A -> j < num_cols_ B ->
  at_ p i j =
  Ok (fold_left
        (fun dot_product t =>
           plus_assign dot_product (times (entry d1 A i t) (entry d2 B t j)))
        (N_range (num_cols_ A)) 0%Z).
Proof.
  intros HA HB Hp Hi Hj. unfold matrix_prod in Hp. simpl in Hp.
  destruct (N.eqb_spec (num_cols_ A) (num_rows_ B)) as [Hk | Hk];
    [| discriminate].
  simpl in Hp. injection Hp as <-. simpl.
  match goal with
  | |- for_upto ?n ?body ?s0 = Ok ?r =>
      destruct (for_upto_invariant
                  (fun t (d : int) =>
                     d = fold_left
                           (fun dot_product t =>
                              plus_assign dot_product
                                (times (entry d1 A i t) (entry d2 B t j)))
                           (N_range t) 0%Z)
                  body n s0) as [d [Hrun Hd]]
  end.
  - reflexivity.
  - intros t d Ht Hd.
    rewrite (matrix_at_entry d1 A i t HA Hi Ht).
    rewrite (matrix_at_entry d2 B t j HB) by lia.
    simpl. eexists. split; [reflexivity |].
    rewrite N_range_succ, fold_left_app. simpl. rewrite Hd. reflexivity.
  - rewrite Hrun, Hd. reflexivity.
Qed.

(** For [int] elements the accumulator has the element type, and the
    product is the dot product of the specification. *)
Lemma matrix_prod_int_correct (A B : matrix int) :
  well_formed A -> well_formed B ->
  num_cols_ A = num_rows_ B ->
  num_rows_ A * num_cols_ B < SIZE_MODULUS ->
  exists P,
    materialise 0%Z
      (operator_times CInt.mul CInt.plus_assign (as_expr A) (as_expr B))
    = Ok P
    /\ num_rows_ P = num_rows_ A
    /\ num_cols_ P = num_cols_ B
    /\ forall i j, i < num_rows_ A -> j < num_cols_ B ->
         matrix_at P i j =
         Ok (dot_product_spec 0%Z CInt.add CInt.mul
               (fun t => entry 0%Z A i t) (fun t => entry 0%Z B t j)
               (num_cols_ A)).
Proof.
  intros HA HB Hk Hfit.
  destruct (matrix_prod_compatible CInt.mul CInt.plus_assign
              (as_expr A) (as_expr B) Hk) as [p [Hp [Hpr Hpc]]].
  unfold materialise, operator_times. rewrite Hp. simpl.
  destruct (matrix_of_expr_spec (fun x : int => x) 0%Z p)
    as [P [Hrun [HPr [HPc [_ Hcells]]]]].
  - rewrite Hpr, Hpc. exact Hfit.
  - intros i j Hi Hj. rewrite Hpr in Hi. rewrite Hpc in Hj.
    rewrite (matrix_prod_at CInt.mul CInt.plus_assign 0%Z 0%Z A B p i j
               HA HB Hp Hi Hj).
    eexists. reflexivity.
  - exists P. split; [exact Hrun |].
    split; [exact (eq_trans HPr Hpr) |]. split; [exact (eq_trans HPc Hpc) |].
    intros i j Hi Hj.
    destruct (Hcells i j) as [x [Hx HP]]; [rewrite Hpr; exact Hi
                                          | rewrite Hpc; exact Hj |].
    rewrite (matrix_prod_at CInt.mul CInt.plus_assign 0%Z 0%Z A B p i j
               HA HB Hp Hi Hj) in Hx.
    injection Hx as <-. exact HP.
Qed.

(** C1, at [long long] elements: [A = B = {{65536}}].  The dot product of
    the specification is [4294967296]; the accumulator of
    [matrix_prod::at] is an [int], the converted sum is [0], and that is
    what the materialised [matrix<long long>] holds. *)
Theorem long_long_product_truncated :
  (e <- operator_times CLongLong.mul CLongLong.plus_assign
          (as_expr L11) (as_expr L11) ;;
   matrix_of_expr CLongLong.of_int 0%Z e)
  = Ok {| num_rows_ := 1; num_cols_ := 1; matrix_ := [0%Z] |}
  /\ dot_product_spec 0%Z CLongLong.add CLongLong.mul
       (fun t => entry 0%Z L11 0 t) (fun t => entry 0%Z L11 t 0) 1
     = 4294967296%Z.
Proof. split; vm_compute; reflexivity. Qed.

(** ** Coordinate checks of the dense lookup *)

(** The assertions of [matrix::at] fail exactly when a coordinate exceeds
    its count: a coordinate equal to the count passes them. *)
Lemma matrix_at_abort_iff {T : Type} (m : matrix T) (row col : size_t) :
  matrix_at m row col = Abort <-> num_cols_ m < col \/ num_rows_ m < row.
Proof.
  unfold matrix_at.
  destruct (N.leb_spec col (num_cols_ m)) as [Hc | Hc]; simpl.
  - destruct (N.leb_spec row (num_rows_ m)) as [Hr | Hr]; simpl.
    + split.
      * unfold vec_get.
        destruct (nth_error _ _); intros H; discriminate.
      * intros [H | H]; lia.
    + split; [intros _; right; exact Hr | reflexivity].
  - split; [intros _; left; exact Hc | reflexivity].
Qed.

(** C4, on the 2x2 store [{{1,2},{3,4}}]: the coordinate [(0,2)] has
    [col = num_cols()], yet both assertions pass and the lookup returns the
    element stored at [(1,0)]; the coordinate [(2,0)] has
    [row = num_rows()], passes as well, and reads past the buffer. *)
Theorem at_accepts_count_as_coordinate :
  matrix_at A22 0 2 = Ok 3%Z
  /\ matrix_at A22 2 0 = Undef
  /\ matrix_at A22 0 3 = Abort.
Proof. repeat split. Qed.

(** ** Maximum *)

Section Maximum.
Context {T : Type} (gt : T -> T -> bool).
Hypothesis gt_asym : forall x y, gt x y = true -> gt y x = false.
Hypothesis gt_negtrans :
  forall x y z, gt x y = false -> gt y z = false -> gt x z = false.

Lemma gt_irrefl (x : T) : gt x x = false.
Proof.
  destruct (gt x x) eqn:E; [| reflexivity].
  rewrite (gt_asym x x E) in E. discriminate.
Qed.

Lemma running_max (l : list T) :
  forall init,
    let v := fold_left (max_step gt) l init in
    (v = init \/ In v l)
    /\ gt init v = false
    /\ forall x, In x l -> gt x v = false.
Proof.
  induction l as [| c tl IH]; intros init; simpl.
  - split; [left; reflexivity |]. split; [apply gt_irrefl |].
    intros x [].
  - destruct (IH (max_step gt init c)) as [Hin [Hinit Hall]].
    split; [| split].
    + destruct Hin as [E | Hin]; [| right; right; exact Hin].
      rewrite E. unfold max_step.
      destruct (gt init c); [left | right; left]; reflexivity.
    + unfold max_step in Hinit at 1.
      destruct (gt init c) eqn:E; [exact Hinit |].
      exact (gt_negtrans _ _ _ E Hinit).
    + intros x [<- | Hx]; [| apply Hall; exact Hx].
      unfold max_step in Hinit at 1.
      destruct (gt init c) eqn:E; [| exact Hinit].
      exact (gt_negtrans _ _ _ (gt_asym _ _ E) Hinit).
Qed.

(** C5, amended: on a non-empty store [max()] returns a stored element
    that no stored element exceeds; on an empty store nothing is checked
    and the read of [matrix_[0]] is undefined.  [max()] returns a value
    exactly when the store is non-empty. *)
Theorem max_correct (m : matrix T) :
  (matrix_ m <> [] ->
   exists v, matrix_max gt m = Ok v
             /\ In v (matrix_ m)
             /\ forall x, In x (matrix_ m) -> gt x v = false)
  /\ (matrix_ m = [] -> matrix_max gt m = Undef).
Proof.
  unfold matrix_max, vec_get. split.
  - intros Hne. destruct (matrix_ m) as [| x tl] eqn:E; [contradiction |].
    pose proof (running_max (x :: tl) x) as H. cbv zeta in H.
    destruct H as [Hin [_ Hall]].
    exists (fold_left (max_step gt) (x :: tl) x).
    split; [reflexivity |]. split.
    + destruct Hin as [E0 | Hin]; [rewrite E0; left; reflexivity | exact Hin].
    + exact Hall.
  - intros ->. reflexivity.
Qed.

End Maximum.

Lemma CInt_gt_asym (x y : int) : CInt.gt x y = true -> CInt.gt y x = false.
Proof. unfold CInt.gt. lia. Qed.

Lemma CInt_gt_negtrans (x y z : int) :
  CInt.gt x y = false -> CInt.gt y z = false -> CInt.gt x z = false.
Proof. unfold CInt.gt. lia. Qed.

Lemma max_correct_witness :
  matrix_ A22 <> []
  /\ exists v, matrix_max CInt.gt A22 = Ok v
               /\ In v (matrix_ A22)
               /\ forall x, In x (matrix_ A22) -> CInt.gt x v = false.
Proof.
  split.
  - discriminate.
  - apply (max_correct CInt.gt CInt_gt_asym CInt_gt_negtrans A22).
    discriminate.
Defined.

(** C5 as stated fails on the empty store: [max()] is not stopped by any
    check there. *)
Lemma max_empty_not_detected :
  matrix_ empty_store = []
  /\ matrix_max CInt.gt empty_store = Undef
  /\ matrix_max CInt.gt empty_store <> Abort.
Proof. repeat split. discriminate. Qed.

(** ** The buffer-length invariant *)

Lemma matrix_of_expr_shape {T V : Type} (static_cast_T : V -> T) (zero : T)
  (expr : matrix_expr V) (m : matrix T) :
  matrix_of_expr static_cast_T zero expr = Ok m ->
  num_rows_ m = num_rows expr
  /\ num_cols_ m = num_cols expr
  /\ List.length (matrix_ m)
     = N.to_nat (size_mul (num_rows expr) (num_cols expr)).
Proof.
  unfold matrix_of_expr. intros H.
  apply bind_ok in H. destruct H as [data [Hrun Hm]].
  injection Hm as <-. simpl. split; [reflexivity |]. split; [reflexivity |].
  unfold for_upto in Hrun.
  apply (for_from_preserves
           (fun d : list T =>
              List.length d
              = N.to_nat (size_mul (num_rows expr) (num_cols expr))))
    in Hrun.
  - exact Hrun.
  - intros i d d' Hinner Hd.
    apply (for_from_preserves
             (fun d : list T =>
                List.length d
                = N.to_nat (size_mul (num_rows expr) (num_cols expr))))
      in Hinner.
    + exact Hinner.
    + intros j e e' Hbody He.
      apply bind_ok in Hbody. destruct Hbody as [v [_ Hset]].
      rewrite (vec_set_length _ _ _ _ Hset). exact He.
    + exact Hd.
  - unfold vec_resize. apply repeat_length.
Qed.

Lemma matrix_at_put_shape {T : Type} (m m' : matrix T) (row col : size_t)
  (elem : T) :
  matrix_at_put m row col elem = Ok m' ->
  num_rows_ m' = num_rows_ m
  /\ num_cols_ m' = num_cols_ m
  /\ List.length (matrix_ m') = List.length (matrix_ m).
Proof.
  unfold matrix_at_put. intros H.
  apply bind_ok in H. destruct H as [_ [_ H]].
  apply bind_ok in H. destruct H as [_ [_ H]].
  apply bind_ok in H. destruct H as [data [Hset H]].
  injection H as <-. simpl.
  split; [reflexivity |]. split; [reflexivity |].
  exact (vec_set_length _ _ _ _ Hset).
Qed.

Lemma put_row_shape {T : Type} (row : list T) :
  forall (m m' : matrix T) (cur_row cur_col : size_t),
    put_row m cur_row cur_col row = Ok m' ->
    num_rows_ m' = num_rows_ m
    /\ num_cols_ m' = num_cols_ m
    /\ List.length (matrix_ m') = List.length (matrix_ m).
Proof.
  induction row as [| elem tl IH]; intros m m' cur_row cur_col H; simpl in H.
  - injection H as <-. repeat split.
  - apply bind_ok in H. destruct H as [m1 [Hput Hrest]].
    destruct (matrix_at_put_shape _ _ _ _ _ Hput) as [Hr [Hc Hl]].
    destruct (IH _ _ _ _ Hrest) as [Hr' [Hc' Hl']].
    rewrite Hr', Hc', Hl'. repeat split; assumption.
Qed.

Lemma put_rows_shape {T : Type} (list : list (list T)) :
  forall (m m' : matrix T) (cur_row : size_t),
    put_rows m cur_row list = Ok m' ->
    num_rows_ m' = num_rows_ m
    /\ num_cols_ m' = num_cols_ m
    /\ List.length (matrix_ m') = List.length (matrix_ m).
Proof.
  induction list as [| row tl IH]; intros m m' cur_row H; simpl in H.
  - injection H as <-. repeat split.
  - apply bind_ok in H. destruct H as [_ [_ H]].
    apply bind_ok in H. destruct H as [m1 [Hrow Hrest]].
    destruct (put_row_shape _ _ _ _ _ Hrow) as [Hr [Hc Hl]].
    destruct (IH _ _ _ Hrest) as [Hr' [Hc' Hl']].
    rewrite Hr', Hc', Hl'. repeat split; assumption.
Qed.

(** C7, amended: the constructor from explicit dimensions and a flat buffer
    checks nothing and stores its three arguments as given, so the store it
    returns has a buffer of length [rows * cols] exactly when the supplied
    buffer has; a store returned by materialisation or by the nested-literal
    constructor, for a shape whose element count fits [size_t], always has. *)
Theorem storage_invariant_by_constructor {T V : Type}
  (rows columns : size_t) (data : list T)
  (static_cast_T : V -> T) (zero : T)
  (expr : matrix_expr V) (list : list (list T)) :
  (exists m,
     matrix_of_data rows columns data = Ok m
     /\ num_rows_ m = rows /\ num_cols_ m = columns /\ matrix_ m = data
     /\ (storage_invariant m
         <-> N.of_nat (List.length data) = rows * columns))
  /\ (forall m,
        num_rows expr * num_cols expr < SIZE_MODULUS ->
        matrix_of_expr static_cast_T zero expr = Ok m ->
        storage_invariant m)
  /\ (forall m,
        N.of_nat (List.length list) * N.of_nat (List.length (hd [] list))
        < SIZE_MODULUS ->
        matrix_of_list zero list = Ok m ->
        storage_invariant m).
Proof.
  split; [| split].
  - eexists. split; [reflexivity |]. simpl.
    split; [reflexivity |]. split; [reflexivity |]. split; [reflexivity |].
    unfold storage_invariant. simpl. split; intros H; exact H.
  - intros m Hfit Hm.
    destruct (matrix_of_expr_shape _ _ _ _ Hm) as [Hr [Hc Hl]].
    unfold storage_invariant. rewrite Hr, Hc, Hl.
    unfold size_mul. rewrite N.mod_small by exact Hfit. lia.
  - intros m Hfit Hm. unfold matrix_of_list in Hm.
    destruct list as [| first tl]; [discriminate |].
    destruct (put_rows_shape _ _ _ _ Hm) as [Hr [Hc Hl]].
    simpl in Hr, Hc, Hl. simpl hd in Hfit.
    unfold storage_invariant. rewrite Hr, Hc, Hl.
    unfold vec_resize. rewrite repeat_length.
    unfold size_mul. rewrite N.mod_small by exact Hfit. lia.
Qed.

Lemma storage_invariant_by_constructor_witness :
  (exists m,
     matrix_of_data 2 2 [1; 2; 3; 4]%Z = Ok m
     /\ num_rows_ m = 2 /\ num_cols_ m = 2 /\ matrix_ m = [1; 2; 3; 4]%Z
     /\ (storage_invariant m
         <-> N.of_nat (List.length [1; 2; 3; 4]%Z) = 2 * 2))
  /\ storage_invariant
       {| num_rows_ := 2; num_cols_ := 2; matrix_ := [1; 2; 3; 4]%Z |}
  /\ storage_invariant
       {| num_rows_ := 1; num_cols_ := 2; matrix_ := [7; 8]%Z |}.
Proof.
  pose proof (storage_invariant_by_constructor 2 2 [1; 2; 3; 4]%Z
                (fun x : int => x) 0%Z (as_expr A22) [[7; 8]%Z])
    as [Hdata [Hexpr Hlist]].
  split; [exact Hdata |]. split.
  - apply Hexpr; [vm_compute; reflexivity | reflexivity].
  - apply Hlist; [vm_compute; reflexivity | reflexivity].
Defined.

(** C7 as stated fails: a 2x2 store over a one-element buffer is
    constructed without complaint. *)
Lemma length_mismatch_not_detected :
  exists m,
    matrix_of_data 2 2 [1%Z] = Ok m /\ ~ storage_invariant m.
Proof.
  eexists. split; [reflexivity |].
  unfold storage_invariant. simpl. discriminate.
Qed.

(** ** Default construction *)

(** C8, for [matrix<int> c;]: the members behind [num_rows()] and
    [num_cols()] are indeterminate, not [0]; only value-initialisation
    gives the 0x0 shape. *)
Theorem default_init_shape_indeterminate :
  obj_num_rows (matrix_default int DefaultInit) = Undef
  /\ obj_num_cols (matrix_default int DefaultInit) = Undef
  /\ obj_num_rows (matrix_default int ValueInit) = Ok 0
  /\ obj_num_cols (matrix_default int ValueInit) = Ok 0.
Proof. repeat split. Qed.

(** ** Rendering *)

Lemma append_assoc (a b c : string) :
  ((a ++ b) ++ c = a ++ (b ++ c))%string.
Proof.
  induction a as [| ch a IH]; simpl; [reflexivity |].
  rewrite IH. reflexivity.
Qed.

Lemma append_empty_r (a : string) : (a ++ EmptyString = a)%string.
Proof.
  induction a as [| ch a IH]; simpl; [reflexivity |].
  rewrite IH. reflexivity.
Qed.

Lemma join_snoc (l : list string) (x : string) :
  (join (l ++ [x]) = join l ++ x)%string.
Proof.
  unfold join. induction l as [| y tl IH]; simpl.
  - apply append_empty_r.
  - rewrite IH, append_assoc. reflexivity.
Qed.

(** C9: printing a conformer whose in-range coordinates evaluate appends,
    row after row, every value followed by a space and a newline after each
    row; a conformer with no rows appends nothing; the 1x1 store holding [5]
    is printed as the three characters ['5'], [' '], ['\n']. *)
Theorem print_expr_format {V : Type} (show : V -> string) (stream : string)
  (expr : matrix_expr V) (value : N -> N -> V) :
  (forall i j, i < num_rows expr -> j < num_cols expr ->
               at_ expr i j = Ok (value i j)) ->
  print_expr show stream expr
  = Ok (stream
        ++ render_spec show value (num_rows expr) (num_cols expr))%string
  /\ (num_rows expr = 0 -> print_expr show stream expr = Ok stream)
  /\ print_expr CInt.show EmptyString (as_expr five)
     = Ok (String "5" (String " " (String "010" EmptyString))).
Proof.
  intros Hat. split; [| split].
  - unfold print_expr.
    destruct (N.eqb_spec (num_rows expr) 0) as [E | E].
    + rewrite E. unfold render_spec. simpl. rewrite append_empty_r.
      reflexivity.
    + match goal with
      | |- for_upto ?n ?body ?s0 = _ =>
          destruct (for_upto_invariant
                      (fun i s =>
                         s = (stream
                              ++ render_spec show value i (num_cols expr))
                               %string)
                      body n s0) as [s [Hrun Hs]]
      end.
      * unfold render_spec. simpl. rewrite append_empty_r. reflexivity.
      * intros i s Hi Hs.
        match goal with
        | |- exists t', bind (for_upto ?n ?body ?s0) _ = _ /\ _ =>
            destruct (for_upto_invariant
                        (fun j t =>
                           t = (s ++ join
                                       (map (fun j =>
                                               show (value i j) ++ " ")
                                          (N_range j)))%string)
                        body n s0) as [t [Hrun Ht]]
        end.
        -- simpl. rewrite append_empty_r. reflexivity.
        -- intros j t Hj Ht. rewrite (Hat i j Hi Hj). simpl.
           eexists. split; [reflexivity |].
           rewrite N_range_succ, map_app. simpl map.
           rewrite join_snoc, Ht, append_assoc. reflexivity.
        -- rewrite Hrun. simpl. eexists. split; [reflexivity |].
           unfold render_spec. rewrite N_range_succ, map_app. simpl map.
           rewrite join_snoc, Ht, Hs. unfold render_spec, render_row.
           rewrite !append_assoc. reflexivity.
      * rewrite Hrun, Hs. reflexivity.
  - intros E. unfold print_expr. rewrite E. reflexivity.
  - reflexivity.
Qed.

Lemma print_expr_format_witness :
  print_expr CInt.show "A" (as_expr A22)
  = Ok ("A" ++ render_spec CInt.show (entry 0%Z A22) 2 2)%string
  /\ (num_rows (as_expr A22) = 0 ->
      print_expr CInt.show "A" (as_expr A22) = Ok "A"%string)
  /\ print_expr CInt.show EmptyString (as_expr five)
     = Ok (String "5" (String " " (String "010" EmptyString))).
Proof.
  apply (print_expr_format CInt.show "A" (as_expr A22) (entry 0%Z A22)).
  intros i j Hi Hj.
  apply (matrix_at_entry 0%Z A22 i j); [split; reflexivity | exact Hi | exact Hj].
Defined.

(** ** Compound assignment *)

Lemma exec_binary_frame {T R : Type}
  (op : matrix_expr T -> matrix_expr T -> result (matrix_expr R))
  (sigma sigma' : @scope T) (x y : string) (node : matrix_expr R) :
  exec_binary op sigma x y = Ok (sigma', node) -> sigma' = sigma.
Proof.
  unfold exec_binary. intros H.
  apply bind_ok in H. destruct H as [lhs [_ H]].
  apply bind_ok in H. destruct H as [rhs [_ H]].
  apply bind_ok in H. destruct H as [n [_ H]].
  injection H as <- _. reflexivity.
Qed.

Lemma exec_scalar_rhs_frame {T R S : Type}
  (op : matrix_expr T -> S -> result (matrix_expr R))
  (sigma sigma' : @scope T) (x : string) (s : S) (node : matrix_expr R) :
  exec_scalar_rhs op sigma x s = Ok (sigma', node) -> sigma' = sigma.
Proof.
  unfold exec_scalar_rhs. intros H.
  apply bind_ok in H. destruct H as [lhs [_ H]].
  apply bind_ok in H. destruct H as [n [_ H]].
  injection H as <- _. reflexivity.
Qed.

(** C10: [+=], [-=] and [*=] build the node the plain operator builds, in
    every form of the product; the statement [x op= y;] returns that node
    and leaves every object in scope, the left operand among them, as it
    was. *)
Theorem compound_assignment_builds_node {T R : Type}
  (plus minus times : T -> T -> R) (plus_assign : int -> R -> int)
  (sigma : @scope T) (x y : string) (s : T) :
  (forall u v : matrix_expr T,
      operator_plus_assign plus u v = operator_plus plus u v
      /\ operator_minus_assign minus u v = operator_minus minus u v
      /\ operator_times_assign times plus_assign u v
         = operator_times times plus_assign u v
      /\ operator_times_assign_scalar_rhs times u s
         = operator_times_scalar_rhs times u s
      /\ operator_times_assign_scalar_lhs times s v
         = operator_times_scalar_lhs times s v)
  /\ (forall sigma' node,
        exec_binary (operator_plus_assign plus) sigma x y = Ok (sigma', node)
        -> sigma' = sigma
           /\ exec_binary (operator_plus plus) sigma x y = Ok (sigma, node))
  /\ (forall sigma' node,
        exec_binary (operator_minus_assign minus) sigma x y
        = Ok (sigma', node)
        -> sigma' = sigma
           /\ exec_binary (operator_minus minus) sigma x y = Ok (sigma, node))
  /\ (forall sigma' node,
        exec_binary (operator_times_assign times plus_assign) sigma x y
        = Ok (sigma', node)
        -> sigma' = sigma
           /\ exec_binary (operator_times times plus_assign) sigma x y
              = Ok (sigma, node))
  /\ (forall sigma' node,
        exec_scalar_rhs (operator_times_assign_scalar_rhs times) sigma x s
        = Ok (sigma', node)
        -> sigma' = sigma
           /\ exec_scalar_rhs (operator_times_scalar_rhs times) sigma x s
              = Ok (sigma, node)).
Proof.
  split; [| split; [| split; [| split]]].
  - intros u v. repeat split.
  - intros sigma' node H.
    pose proof (exec_binary_frame _ _ _ _ _ _ H) as ->.
    split; [reflexivity | exact H].
  - intros sigma' node H.
    pose proof (exec_binary_frame _ _ _ _ _ _ H) as ->.
    split; [reflexivity | exact H].
  - intros sigma' node H.
    pose proof (exec_binary_frame _ _ _ _ _ _ H) as ->.
    split; [reflexivity | exact H].
  - intros sigma' node H.
    pose proof (exec_scalar_rhs_frame _ _ _ _ _ _ H) as ->.
    split; [reflexivity | exact H].
Qed.

Lemma compound_assignment_builds_node_witness :
  exec_binary (operator_plus_assign CInt.add) scope_ab "a" "b"
  = Ok (scope_ab, sum_node_ab)
  /\ scope_ab = scope_ab
  /\ exec_binary (operator_plus CInt.add) scope_ab "a" "b"
     = Ok (scope_ab, sum_node_ab).
Proof.
  split; [reflexivity |].
  apply (compound_assignment_builds_node CInt.add CInt.sub CInt.mul
           CInt.plus_assign scope_ab "a" "b" 10%Z).
  reflexivity.
Defined.

(** ** The concrete scenario

    [A = {{1,2},{3,4}}] and [B = {{5,6},{7,8}}] over [int]. *)

Example scenario_sum :
  materialise 0%Z (operator_plus CInt.add (as_expr A22) (as_expr B22))
  = Ok {| num_rows_ := 2; num_cols_ := 2; matrix_ := [6; 8; 10; 12]%Z |}.
Proof. reflexivity. Qed.

Example scenario_difference :
  materialise 0%Z (operator_minus CInt.sub (as_expr A22) (as_expr B22))
  = Ok {| num_rows_ := 2; num_cols_ := 2;
          matrix_ := [-4; -4; -4; -4]%Z |}.
Proof. reflexivity. Qed.

Example scenario_product :
  materialise 0%Z
    (operator_times CInt.mul CInt.plus_assign (as_expr A22) (as_expr B22))
  = Ok {| num_rows_ := 2; num_cols_ := 2;
          matrix_ := [19; 22; 43; 50]%Z |}.
Proof. reflexivity. Qed.

Example scenario_scalar :
  materialise 0%Z (operator_times_scalar_rhs CInt.mul (as_expr A22) 10%Z)
  = Ok {| num_rows_ := 2; num_cols_ := 2;
          matrix_ := [10; 20; 30; 40]%Z |}.
Proof. reflexivity. Qed.

Example literal_round_trip :
  exists m,
    matrix_of_list 0%Z [[1; 2; 3]; [4; 5; 6]]%Z = Ok m
    /\ num_rows_ m = 2 /\ num_cols_ m = 3 /\ matrix_at m 1 2 = Ok 6%Z.
Proof. eexists. repeat split. Qed.

Example literal_ragged_rows :
  matrix_of_list 0%Z [[1; 2; 3]; [4; 5]]%Z = Abort.
Proof. reflexivity. Qed.

Example compound_assignment_keeps_lhs :
  exists sigma' node,
    exec_binary (operator_plus_assign CInt.add) scope_ab "a" "b"
    = Ok (sigma', node)
    /\ sigma' "a"%string = Some A22.
Proof. eexists. eexists. split; reflexivity. Qed.

(** * Further properties of the header *)

(** ** Loops, continued *)

(** Every iteration of a loop that ran to its end was run, from a state
    that the earlier iterations had kept within [Q]. *)
Lemma for_from_ok_inv {S : Type} (Q : S -> Prop)
  (body : size_t -> S -> result S) (count : nat) :
  (forall k t t', body k t = Ok t' -> Q t -> Q t') ->
  forall (i : size_t) (s s' : S),
    for_from count i body s = Ok s' -> Q s ->
    forall k, i <= k < i + N.of_nat count ->
              exists t t', Q t /\ body k t = Ok t'.
Proof.
  intros Hbody. induction count as [| n IH]; intros i s s' Hrun Hs k Hk.
  - lia.
  - simpl in Hrun. apply bind_ok in Hrun. destruct Hrun as [t [Hb Hrest]].
    destruct (N.eq_dec k i) as [-> | Hne].
    + exists s, t. split; assumption.
    + apply (IH (i + 1) t s' Hrest (Hbody i s t Hb Hs)). lia.
Qed.

Lemma for_upto_ok_inv {S : Type} (Q : S -> Prop)
  (body : size_t -> S -> result S) (n : size_t) (s s' : S) :
  (forall k t t', body k t = Ok t' -> Q t -> Q t') ->
  for_upto n body s = Ok s' -> Q s ->
  forall k, k < n -> exists t t', Q t /\ body k t = Ok t'.
Proof.
  intros Hbody Hrun Hs k Hk. unfold for_upto in Hrun.
  apply (for_from_ok_inv Q body (N.to_nat n) Hbody 0 s s' Hrun Hs). lia.
Qed.

Lemma for_upto_preserves {S : Type} (Q : S -> Prop)
  (body : size_t -> S -> result S) (n : size_t) (s s' : S) :
  (forall k t t', body k t = Ok t' -> Q t -> Q t') ->
  for_upto n body s = Ok s' -> Q s -> Q s'.
Proof.
  intros Hbody Hrun Hs. unfold for_upto in Hrun.
  exact (for_from_preserves Q body (N.to_nat n) Hbody 0 s s' Hrun Hs).
Qed.



(** ** Lookup and update of the dense store *)

(** X1: on a store whose buffer has [rows * cols] elements, an in-range
    [at(i, j)] passes both assertions and returns the buffer element at the
    row-major index [i * cols + j]. *)
Theorem at_reads_row_major {T : Type} (m : matrix T) (i j : size_t) :
  well_formed m -> i < num_rows_ m -> j < num_cols_ m ->
  exists a,
    nth_error (matrix_ m) (N.to_nat (i * num_cols_ m + j)) = Some a
    /\ matrix_at m i j = Ok a.
Proof.
  intros Hwf Hi Hj. pose proof Hwf as [Hinv Hlen].
  unfold storage_invariant in Hinv.
  rewrite matrix_at_in_range by (try assumption; lia).
  unfold vec_get.
  destruct (nth_error (matrix_ m) (N.to_nat (i * num_cols_ m + j)))
    as [a |] eqn:E.
  - exists a. split; reflexivity.
  - apply nth_error_None in E.
    pose proof (row_major_bound i j _ _ Hi Hj). lia.
Qed.

Lemma at_reads_row_major_witness :
  well_formed A22
  /\ exists a,
       nth_error (matrix_ A22) (N.to_nat (1 * num_cols_ A22 + 0)) = Some a
       /\ matrix_at A22 1 0 = Ok a.
Proof.
  split.
  - split; reflexivity.
  - apply (at_reads_row_major A22 1 0); [split | |]; reflexivity.
Defined.

(** X2: whatever the buffer, [at(row, col)] stops on a failed assertion
    exactly when [col] exceeds the column count or [row] exceeds the row
    count. *)
Theorem at_aborts_iff_beyond_count {T : Type} (m : matrix T)
  (row col : size_t) :
  matrix_at m row col = Abort <-> num_cols_ m < col \/ num_rows_ m < row.
Proof. apply matrix_at_abort_iff. Qed.

(** X3: an in-range write through the non-const [at] succeeds, keeps the
    shape and the buffer length, is read back by [at] at the same
    coordinate, and leaves every other in-range coordinate as it was. *)
Theorem at_put_then_at {T : Type} (m : matrix T) (i j : size_t) (elem : T) :
  well_formed m -> i < num_rows_ m -> j < num_cols_ m ->
  exists m',
    matrix_at_put m i j elem = Ok m'
    /\ num_rows_ m' = num_rows_ m
    /\ num_cols_ m' = num_cols_ m
    /\ well_formed m'
    /\ matrix_at m' i j = Ok elem
    /\ forall i' j', i' < num_rows_ m -> j' < num_cols_ m ->
                     (i', j') <> (i, j) ->
                     matrix_at m' i' j' = matrix_at m i' j'.
Proof.
  intros Hwf Hi Hj. pose proof Hwf as [Hinv Hlen].
  unfold storage_invariant in Hinv.
  pose proof (row_major_bound i j _ _ Hi Hj) as Hb.
  unfold matrix_at_put.
  destruct (N.leb_spec j (num_cols_ m)); [| lia].
  destruct (N.leb_spec i (num_rows_ m)); [| lia].
  simpl. rewrite size_index_small by lia.
  rewrite vec_set_defined by lia. simpl.
  eexists. split; [reflexivity |]. simpl.
  split; [reflexivity |]. split; [reflexivity |].
  assert (Hwf' : well_formed
                   {| num_rows_ := num_rows_ m; num_cols_ := num_cols_ m;
                      matrix_ := replace_nth
                                   (N.to_nat (i * num_cols_ m + j))
                                   (matrix_ m) elem |}).
  { split; [unfold storage_invariant |]; simpl;
      rewrite replace_nth_length; assumption. }
  split; [exact Hwf' |]. split.
  - rewrite matrix_at_in_range by (simpl; try assumption; lia). simpl.
    apply vec_get_set_same. lia.
  - intros i' j' Hi' Hj' Hne.
    rewrite matrix_at_in_range by (simpl; try assumption; lia).
    rewrite (matrix_at_in_range m) by (try assumption; lia). simpl.
    apply vec_get_set_other. intros E.
    destruct (row_major_injective _ _ _ _ _ Hj' Hj E) as [-> ->].
    apply Hne. reflexivity.
Qed.

Lemma at_put_then_at_witness :
  well_formed A22
  /\ exists m',
       matrix_at_put A22 0 1 9%Z = Ok m'
       /\ num_rows_ m' = num_rows_ A22
       /\ num_cols_ m' = num_cols_ A22
       /\ well_formed m'
       /\ matrix_at m' 0 1 = Ok 9%Z
       /\ forall i' j', i' < num_rows_ A22 -> j' < num_cols_ A22 ->
                        (i', j') <> (0, 1) ->
                        matrix_at m' i' j' = matrix_at A22 i' j'.
Proof.
  split.
  - split; reflexivity.
  - apply (at_put_then_at A22 0 1 9%Z); [split | |]; reflexivity.
Defined.

(** ** Materialisation of an arbitrary expression *)

(** X6: for any conformer whose element count fits [size_t] and whose
    in-range coordinates all evaluate, the materialising constructor
    returns a store of the conformer's shape, with a buffer of
    [rows * cols] elements, that holds at every coordinate the converted
    value of the expression there. *)
Theorem materialisation_total {T V : Type} (static_cast_T : V -> T)
  (zero : T) (expr : matrix_expr V) :
  num_rows expr * num_cols expr < SIZE_MODULUS ->
  (forall i j, i < num_rows expr -> j < num_cols expr ->
               exists v, at_ expr i j = Ok v) ->
  exists m,
    matrix_of_expr static_cast_T zero expr = Ok m
    /\ num_rows_ m = num_rows expr
    /\ num_cols_ m = num_cols expr
    /\ well_formed m
    /\ forall i j, i < num_rows expr -> j < num_cols expr ->
         exists v, at_ expr i j = Ok v
                   /\ matrix_at m i j = Ok (static_cast_T v).
Proof. apply matrix_of_expr_spec. Qed.

Lemma materialisation_total_witness :
  exists m,
    matrix_of_expr CLongLong.of_int 0%Z sum_node_ab = Ok m
    /\ num_rows_ m = num_rows sum_node_ab
    /\ num_cols_ m = num_cols sum_node_ab
    /\ well_formed m
    /\ forall i j, i < num_rows sum_node_ab -> j < num_cols sum_node_ab ->
         exists v, at_ sum_node_ab i j = Ok v
                   /\ matrix_at m i j = Ok (CLongLong.of_int v).
Proof.
  apply (materialisation_total CLongLong.of_int 0%Z sum_node_ab).
  - reflexivity.
  - intros i j Hi Hj. simpl in Hi, Hj. simpl.
    destruct (matrix_at_defined A22 i j) as [a Ha];
      [split; reflexivity | exact Hi | exact Hj |].
    destruct (matrix_at_defined B22 i j) as [b Hb];
      [split; reflexivity | exact Hi | exact Hj |].
    rewrite Ha, Hb. simpl. eexists. reflexivity.
Defined.

(** The inner loop of the materialising constructor keeps the length of the
    buffer. *)
Lemma materialise_row_length {T V : Type} (static_cast_T : V -> T)
  (expr : matrix_expr V) (cols i : size_t) (len : nat) (d d' : list T) :
  for_upto cols
    (fun j data =>
       v <- at_ expr i j ;;
       vec_set data (size_add (size_mul i cols) j) (static_cast_T v)) d
  = Ok d' ->
  List.length d = len -> List.length d' = len.
Proof.
  intros Hrun Hd.
  apply (for_upto_preserves (fun d : list T => List.length d = len)
           _ _ _ _) in Hrun; [exact Hrun | | exact Hd].
  intros j e e' Hbody He.
  apply bind_ok in Hbody. destruct Hbody as [v [_ Hset]].
  rewrite (vec_set_length _ _ _ _ Hset). exact He.
Qed.

(** A materialisation that returned has written, for every in-range
    coordinate, the value it evaluated into a buffer of the allocated
    length. *)
Lemma matrix_of_expr_ran {T V : Type} (static_cast_T : V -> T) (zero : T)
  (expr : matrix_expr V) (m : matrix T) (i j : size_t) :
  matrix_of_expr static_cast_T zero expr = Ok m ->
  i < num_rows expr -> j < num_cols expr ->
  exists v (d d' : list T),
    at_ expr i j = Ok v
    /\ List.length d
       = N.to_nat (size_mul (num_rows expr) (num_cols expr))
    /\ vec_set d (size_add (size_mul i (num_cols expr)) j) (static_cast_T v)
       = Ok d'.
Proof.
  unfold matrix_of_expr. intros H Hi Hj.
  apply bind_ok in H. destruct H as [data [Hrun _]].
  set (len := N.to_nat (size_mul (num_rows expr) (num_cols expr))) in *.
  destruct (for_upto_ok_inv (fun d : list T => List.length d = len)
              _ _ _ _
              (fun k t t' Hb Ht =>
                 materialise_row_length static_cast_T expr _ k len t t' Hb Ht)
              Hrun (repeat_length zero len) i Hi)
    as [t [t' [Ht Hinner]]].
  destruct (for_upto_ok_inv (fun d : list T => List.length d = len)
              _ _ _ _
              (fun k (e e' : list T)
                   (Hb : (v <- at_ expr i k ;;
                          vec_set e (size_add (size_mul i (num_cols expr)) k)
                            (static_cast_T v)) = Ok e')
                   (He : List.length e = len) =>
                 match bind_ok _ _ _ Hb with
                 | ex_intro _ v (conj _ Hset) =>
                     eq_trans (vec_set_length _ _ _ _ Hset) He
                 end)
              Hinner Ht j Hj)
    as [d [d' [Hd Hbody]]].
  apply bind_ok in Hbody. destruct Hbody as [v [Hv Hset]].
  exists v, d, d'. repeat split; assumption.
Qed.

(** What a materialisation that returned implies. *)
Lemma matrix_of_expr_returned {T V : Type}
  (static_cast_T : V -> T) (zero : T) (expr : matrix_expr V)
  (m : matrix T) :
  matrix_of_expr static_cast_T zero expr = Ok m ->
  num_rows expr * num_cols expr < SIZE_MODULUS
  /\ num_rows_ m = num_rows expr
  /\ num_cols_ m = num_cols expr
  /\ well_formed m
  /\ forall i j, i < num_rows expr -> j < num_cols expr ->
       exists v, at_ expr i j = Ok v
                 /\ matrix_at m i j = Ok (static_cast_T v).
Proof.
  intros Hm.
  assert (Hfit : num_rows expr * num_cols expr < SIZE_MODULUS).
  { destruct (N.lt_ge_cases (num_rows expr * num_cols expr) SIZE_MODULUS)
      as [Hlt | Hge]; [exact Hlt | exfalso].
    set (rows := num_rows expr) in *. set (cols := num_cols expr) in *.
    set (w := size_mul rows cols).
    assert (Hw : w < SIZE_MODULUS)
      by (apply N.mod_lt; unfold SIZE_MODULUS; lia).
    assert (Hcols : cols <> 0) by (unfold SIZE_MODULUS in Hge; nia).
    assert (Hi : w / cols < rows)
      by (apply N.Div0.div_lt_upper_bound; lia).
    assert (Hj : w mod cols < cols) by (apply N.mod_lt; exact Hcols).
    destruct (matrix_of_expr_ran _ _ _ _ _ _ Hm Hi Hj)
      as [v [d [d' [_ [Hlen Hset]]]]].
    fold rows cols w in Hlen, Hset.
    assert (Hidx : w / cols * cols + w mod cols = w)
      by (rewrite (N.mul_comm (w / cols) cols); symmetry;
          apply N.div_mod; exact Hcols).
    rewrite size_index_small in Hset by lia.
    unfold vec_set in Hset.
    destruct (N.ltb_spec (w / cols * cols + w mod cols)
                (N.of_nat (List.length d))) as [Hlt | Hnlt];
      [lia | discriminate]. }
  assert (Hat : forall i j, i < num_rows expr -> j < num_cols expr ->
                            exists v, at_ expr i j = Ok v).
  { intros i j Hi Hj.
    destruct (matrix_of_expr_ran _ _ _ _ _ _ Hm Hi Hj) as [v [_ [_ [Hv _]]]].
    exists v. exact Hv. }
  destruct (matrix_of_expr_spec static_cast_T zero expr Hfit Hat)
    as [m' [Hm' Hrest]].
  rewrite Hm in Hm'. injection Hm' as <-.
  split; [exact Hfit | exact Hrest].
Qed.

(** X7: the materialising constructor returns a store only if the element
    count [rows * cols] fits [size_t] and every in-range coordinate of the
    expression evaluates; the store then has the expression's shape, a
    buffer of [rows * cols] elements and, at every coordinate, the converted
    value of the expression. *)
Theorem materialisation_returns_only_if {T V : Type}
  (static_cast_T : V -> T) (zero : T) (expr : matrix_expr V)
  (m : matrix T) :
  matrix_of_expr static_cast_T zero expr = Ok m ->
  num_rows expr * num_cols expr < SIZE_MODULUS
  /\ num_rows_ m = num_rows expr
  /\ num_cols_ m = num_cols expr
  /\ well_formed m
  /\ forall i j, i < num_rows expr -> j < num_cols expr ->
       exists v, at_ expr i j = Ok v
                 /\ matrix_at m i j = Ok (static_cast_T v).
Proof. apply matrix_of_expr_returned. Qed.

Lemma materialisation_returns_only_if_witness :
  num_rows sum_node_ab * num_cols sum_node_ab < SIZE_MODULUS
  /\ num_rows_ {| num_rows_ := 2; num_cols_ := 2;
                  matrix_ := [6; 8; 10; 12]%Z |} = num_rows sum_node_ab
  /\ num_cols_ {| num_rows_ := 2; num_cols_ := 2;
                  matrix_ := [6; 8; 10; 12]%Z |} = num_cols sum_node_ab
  /\ well_formed {| num_rows_ := 2; num_cols_ := 2;
                    matrix_ := [6; 8; 10; 12]%Z |}
  /\ forall i j, i < num_rows sum_node_ab -> j < num_cols sum_node_ab ->
       exists v, at_ sum_node_ab i j = Ok v
                 /\ matrix_at {| num_rows_ := 2; num_cols_ := 2;
                                 matrix_ := [6; 8; 10; 12]%Z |} i j
                    = Ok (CLongLong.of_int v).
Proof.
  apply (materialisation_returns_only_if CLongLong.of_int 0%Z sum_node_ab).
  reflexivity.
Defined.

(** X8: materialising a dense store through its base class, as
    [matrix<T>] built from a [matrix<V>] is, copies the shape and converts
    the buffer element by element. *)
Theorem materialise_dense_copies {T V : Type} (static_cast_T : V -> T)
  (zero : T) (m : matrix V) :
  well_formed m ->
  matrix_of_expr static_cast_T zero (as_expr m)
  = Ok {| num_rows_ := num_rows_ m; num_cols_ := num_cols_ m;
          matrix_ := map static_cast_T (matrix_ m) |}.
Proof.
  intros Hwf. pose proof Hwf as [Hinv Hlen]. unfold storage_invariant in Hinv.
  destruct (matrix_of_expr_spec static_cast_T zero (as_expr m))
    as [c [Hrun [Hr [Hc [[Hcinv Hclen] Hcells]]]]].
  - simpl. lia.
  - simpl. intros i j Hi Hj. apply matrix_at_defined; assumption.
  - rewrite Hrun. f_equal. simpl in Hr, Hc, Hcells.
    unfold storage_invariant in Hcinv. rewrite Hr, Hc in Hcinv.
    destruct c as [cr cc cbuf]. simpl in *. subst cr cc. f_equal.
    apply nth_error_ext. intros k.
    destruct (Nat.lt_ge_cases k (List.length (matrix_ m))) as [Hk | Hk].
    + assert (Hcols : num_cols_ m <> 0) by nia.
      set (cols := num_cols_ m) in *.
      set (i := N.of_nat k / cols). set (j := N.of_nat k mod cols).
      assert (Hi : i < num_rows_ m)
        by (apply N.Div0.div_lt_upper_bound; lia).
      assert (Hj : j < cols) by (apply N.mod_lt; exact Hcols).
      assert (Hidx : i * cols + j = N.of_nat k)
        by (unfold i, j; rewrite (N.mul_comm _ cols); symmetry;
            apply N.div_mod; exact Hcols).
      destruct (Hcells i j Hi Hj) as [v [Hv Hcv]].
      rewrite matrix_at_in_range in Hv by (try assumption; lia).
      rewrite matrix_at_in_range in Hcv by (simpl; try assumption; lia).
      simpl in Hcv. fold cols in Hv. rewrite Hidx in Hv, Hcv.
      unfold vec_get in Hv, Hcv. rewrite Nat2N.id in Hv, Hcv.
      rewrite nth_error_map.
      destruct (nth_error (matrix_ m) k) as [x |]; [| discriminate].
      destruct (nth_error cbuf k) as [y |]; [| discriminate].
      injection Hv as ->. injection Hcv as ->. reflexivity.
    + rewrite (proj2 (nth_error_None cbuf k)) by lia.
      rewrite (proj2 (nth_error_None (map static_cast_T (matrix_ m)) k))
        by (rewrite length_map; lia).
      reflexivity.
Qed.

Lemma materialise_dense_copies_witness :
  well_formed A22
  /\ matrix_of_expr CLongLong.of_int 0%Z (as_expr A22)
     = Ok {| num_rows_ := num_rows_ A22; num_cols_ := num_cols_ A22;
             matrix_ := map CLongLong.of_int (matrix_ A22) |}.
Proof.
  split.
  - split; reflexivity.
  - apply (materialise_dense_copies CLongLong.of_int 0%Z A22).
    split; reflexivity.
Defined.

(** ** The nested-literal constructor *)

(** One write of the constructor, stated on the buffer. *)
Lemma at_put_step {T : Type} (m : matrix T) (r c : size_t) (elem : T) :
  well_formed m -> r < num_rows_ m -> c < num_cols_ m ->
  exists m',
    matrix_at_put m r c elem = Ok m'
    /\ num_rows_ m' = num_rows_ m
    /\ num_cols_ m' = num_cols_ m
    /\ well_formed m'
    /\ vec_get (matrix_ m') (r * num_cols_ m + c) = Ok elem
    /\ forall idx, idx <> r * num_cols_ m + c ->
         vec_get (matrix_ m') idx = vec_get (matrix_ m) idx.
Proof.
  intros [Hinv Hlen] Hr Hc. unfold storage_invariant in Hinv.
  pose proof (row_major_bound r c _ _ Hr Hc) as Hb.
  unfold matrix_at_put.
  destruct (N.leb_spec c (num_cols_ m)); [| lia].
  destruct (N.leb_spec r (num_rows_ m)); [| lia].
  simpl. rewrite size_index_small by lia.
  rewrite vec_set_defined by lia. simpl.
  eexists. split; [reflexivity |]. simpl.
  split; [reflexivity |]. split; [reflexivity |]. split; [| split].
  - split; [unfold storage_invariant |]; simpl;
      rewrite replace_nth_length; assumption.
  - apply vec_get_set_same. lia.
  - intros idx Hne. apply vec_get_set_other. exact Hne.
Qed.

Lemma put_row_spec {T : Type} (row : list T) :
  forall (m : matrix T) (r c0 : size_t),
    well_formed m -> r < num_rows_ m ->
    c0 + N.of_nat (List.length row) <= num_cols_ m ->
    exists m',
      put_row m r c0 row = Ok m'
      /\ num_rows_ m' = num_rows_ m
      /\ num_cols_ m' = num_cols_ m
      /\ well_formed m'
      /\ (forall k elem, nth_error row k = Some elem ->
            vec_get (matrix_ m') (r * num_cols_ m + c0 + N.of_nat k)
            = Ok elem)
      /\ (forall idx, idx < r * num_cols_ m + c0 ->
            vec_get (matrix_ m') idx = vec_get (matrix_ m) idx).
Proof.
  induction row as [| elem tl IH]; intros m r c0 Hwf Hr Hc.
  - exists m. simpl. repeat split; try reflexivity; try apply Hwf.
    intros [| k] e H; discriminate.
  - simpl List.length in Hc.
    destruct (at_put_step m r c0 elem Hwf Hr) as [m1 [Hput [Hr1 [Hc1 [Hwf1
      [Hsame Hother]]]]]]; [lia |].
    destruct (IH m1 r (c0 + 1)) as [m' [Hrun [Hr' [Hc' [Hwf' [Hrow Hkeep]]]]]];
      [exact Hwf1 | lia | lia |].
    exists m'. simpl. rewrite Hput. simpl.
    split; [exact Hrun |].
    split; [lia |]. split; [lia |]. split; [exact Hwf' |]. split.
    + intros [| k] e Hk; simpl in Hk.
      * injection Hk as <-. rewrite Hkeep by (rewrite Hc1; lia).
        rewrite N.add_0_r. exact Hsame.
      * rewrite <- (Hrow k e Hk). rewrite Hc1. f_equal. lia.
    + intros idx Hidx. rewrite Hkeep by (rewrite Hc1; lia).
      apply Hother. lia.
Qed.

Lemma put_rows_spec {T : Type} (list : list (list T)) :
  forall (m : matrix T) (r : size_t),
    well_formed m ->
    r + N.of_nat (List.length list) <= num_rows_ m ->
    (forall row, In row list -> N.of_nat (List.length row) = num_cols_ m) ->
    exists m',
      put_rows m r list = Ok m'
      /\ num_rows_ m' = num_rows_ m
      /\ num_cols_ m' = num_cols_ m
      /\ well_formed m'
      /\ (forall k row j elem,
            nth_error list k = Some row -> nth_error row j = Some elem ->
            vec_get (matrix_ m')
              ((r + N.of_nat k) * num_cols_ m + N.of_nat j) = Ok elem)
      /\ (forall idx, idx < r * num_cols_ m ->
            vec_get (matrix_ m') idx = vec_get (matrix_ m) idx).
Proof.
  induction list as [| row tl IH]; intros m r Hwf Hr Hrect.
  - exists m. simpl. repeat split; try reflexivity; try apply Hwf.
    intros [| k] row j e H; discriminate.
  - simpl List.length in Hr.
    assert (Hlen : N.of_nat (List.length row) = num_cols_ m)
      by (apply Hrect; left; reflexivity).
    destruct (put_row_spec row m r 0 Hwf)
      as [m1 [Hrow [Hr1 [Hc1 [Hwf1 [Hcells Hkeep1]]]]]]; [lia | lia |].
    destruct (IH m1 (r + 1) Hwf1)
      as [m' [Hrun [Hr' [Hc' [Hwf' [Hrows Hkeep]]]]]].
    + lia.
    + intros row' Hin. rewrite Hc1. apply Hrect. right. exact Hin.
    + exists m'. simpl. rewrite Hlen, N.eqb_refl. simpl.
      rewrite Hrow. simpl.
      split; [exact Hrun |].
      split; [lia |]. split; [lia |]. split; [exact Hwf' |]. split.
      * intros [| k] row' j e Hk Hj; simpl in Hk.
        -- injection Hk as <-.
           assert (Hjc : N.of_nat j < num_cols_ m).
           { rewrite <- Hlen.
             assert (j < List.length row)%nat
               by (apply nth_error_Some; congruence).
             lia. }
           rewrite Hkeep by (rewrite Hc1; nia).
           rewrite <- (Hcells j e Hj). f_equal. lia.
        -- rewrite <- (Hrows k row' j e Hk Hj). rewrite Hc1. f_equal. lia.
      * intros idx Hidx. rewrite Hkeep by (rewrite Hc1; nia).
        apply Hkeep1. lia.
Qed.

(** X4: the nested-literal constructor, on a non-empty literal whose rows
    all have the length of the first and whose element count fits
    [size_t], returns a store with one row per inner list and one column
    per element of the first; [at(i, j)] reads back element [j] of row
    [i]. *)
Theorem literal_round_trip_general {T : Type} (zero : T)
  (first : list T) (rest : list (list T)) :
  (forall row, In row rest -> List.length row = List.length first) ->
  N.of_nat (List.length (first :: rest)) * N.of_nat (List.length first)
  < SIZE_MODULUS ->
  exists m,
    matrix_of_list zero (first :: rest) = Ok m
    /\ num_rows_ m = N.of_nat (List.length (first :: rest))
    /\ num_cols_ m = N.of_nat (List.length first)
    /\ well_formed m
    /\ forall i j row elem,
         nth_error (first :: rest) i = Some row ->
         nth_error row j = Some elem ->
         matrix_at m (N.of_nat i) (N.of_nat j) = Ok elem.
Proof.
  intros Hrect Hfit. unfold matrix_of_list.
  set (rows := N.of_nat (List.length (first :: rest))) in *.
  set (cols := N.of_nat (List.length first)) in *.
  set (m0 := {| num_rows_ := rows; num_cols_ := cols;
                matrix_ := vec_resize zero (size_mul rows cols) |}).
  assert (Hwf0 : well_formed m0).
  { unfold well_formed, storage_invariant, m0, vec_resize, size_mul.
    cbn [num_rows_ num_cols_ matrix_].
    rewrite repeat_length, N.mod_small, N2Nat.id by exact Hfit.
    split; [reflexivity | exact Hfit]. }
  destruct (put_rows_spec (first :: rest) m0 0 Hwf0)
    as [m [Hrun [Hr [Hc [Hwf [Hcells _]]]]]].
  - unfold m0, rows. cbn [num_rows_]. lia.
  - unfold m0, cols. cbn [num_cols_].
    intros row [<- | Hin]; [reflexivity |].
    rewrite (Hrect row Hin). reflexivity.
  - exists m. unfold m0 in Hr, Hc, Hcells.
    cbn [num_rows_ num_cols_] in Hr, Hc, Hcells.
    split; [exact Hrun |]. split; [exact Hr |]. split; [exact Hc |].
    split; [exact Hwf |].
    intros i j row elem Hi Hj.
    assert (Hil : (i < List.length (first :: rest))%nat)
      by (apply nth_error_Some; congruence).
    assert (Hjl : (j < List.length row)%nat)
      by (apply nth_error_Some; congruence).
    assert (Hrow : List.length row = List.length first).
    { apply nth_error_In in Hi. destruct Hi as [<- | Hin];
        [reflexivity | exact (Hrect row Hin)]. }
    rewrite matrix_at_in_range by (rewrite ?Hr, ?Hc; unfold rows, cols; lia).
    rewrite Hc. rewrite <- (Hcells i row j elem Hi Hj).
    rewrite N.add_0_l. reflexivity.
Qed.

Lemma literal_round_trip_general_witness :
  exists m,
    matrix_of_list 0%Z ([1; 2; 3] :: [[4; 5; 6]])%Z = Ok m
    /\ num_rows_ m = N.of_nat (List.length ([1; 2; 3] :: [[4; 5; 6]])%Z)
    /\ num_cols_ m = N.of_nat (List.length [1; 2; 3]%Z)
    /\ well_formed m
    /\ forall i j row elem,
         nth_error ([1; 2; 3] :: [[4; 5; 6]])%Z i = Some row ->
         nth_error row j = Some elem ->
         matrix_at m (N.of_nat i) (N.of_nat j) = Ok elem.
Proof.
  apply (literal_round_trip_general 0%Z [1; 2; 3]%Z [[4; 5; 6]%Z]).
  - intros row [<- | []]. reflexivity.
  - reflexivity.
Defined.

Lemma put_rows_ragged {T : Type} (list : list (list T)) :
  forall (m : matrix T) (r : size_t),
    well_formed m ->
    r + N.of_nat (List.length list) <= num_rows_ m ->
    (exists row, In row list /\ N.of_nat (List.length row) <> num_cols_ m) ->
    put_rows m r list = Abort.
Proof.
  induction list as [| row tl IH]; intros m r Hwf Hr [bad [Hin Hbad]].
  - destruct Hin.
  - simpl List.length in Hr. simpl.
    destruct (N.eqb_spec (N.of_nat (List.length row)) (num_cols_ m))
      as [Hlen | Hlen]; [| reflexivity].
    simpl.
    destruct (put_row_spec row m r 0 Hwf)
      as [m1 [Hrow [Hr1 [Hc1 [Hwf1 _]]]]]; [lia | lia |].
    rewrite Hrow. simpl. apply IH; [exact Hwf1 | lia |].
    destruct Hin as [<- | Hin]; [contradiction |].
    exists bad. split; [exact Hin | rewrite Hc1; exact Hbad].
Qed.

(** X5: the nested-literal constructor aborts on the row-length assertion
    whenever some row of the literal differs in length from the first row
    (the element count fitting [size_t]); on the empty literal it
    dereferences [list.begin()], which is undefined. *)
Theorem literal_ragged_aborts {T : Type} (zero : T)
  (first : list T) (rest : list (list T)) :
  N.of_nat (List.length (first :: rest)) * N.of_nat (List.length first)
  < SIZE_MODULUS ->
  (exists row, In row rest /\ List.length row <> List.length first) ->
  matrix_of_list zero (first :: rest) = Abort
  /\ matrix_of_list zero (@nil (list T)) = Undef.
Proof.
  intros Hfit [bad [Hin Hbad]]. split; [| reflexivity].
  unfold matrix_of_list. apply put_rows_ragged.
  - unfold well_formed, storage_invariant, vec_resize, size_mul.
    cbn [num_rows_ num_cols_ matrix_].
    rewrite repeat_length, N.mod_small, N2Nat.id by exact Hfit.
    split; [reflexivity | exact Hfit].
  - cbn [num_rows_]. lia.
  - exists bad. split; [right; exact Hin |]. cbn [num_cols_]. lia.
Qed.

Lemma literal_ragged_aborts_witness :
  matrix_of_list 0%Z ([1; 2; 3] :: [[4; 5]])%Z = Abort
  /\ matrix_of_list 0%Z (@nil (list int)) = Undef.
Proof.
  apply (literal_ragged_aborts 0%Z [1; 2; 3]%Z [[4; 5]%Z]).
  - reflexivity.
  - exists [4; 5]%Z. split; [left; reflexivity | discriminate].
Defined.

(** ** Expression trees *)

(** X9: a chain [a + b - c] over three dense stores of one shape builds a
    Difference node over a Sum node and materialises, in one pass, to a
    store of that shape holding [(a + b) - c] at every coordinate. *)
Theorem chain_sum_difference {T1 T2 T3 R1 R : Type}
  (plus : T1 -> T2 -> R1) (minus : R1 -> T3 -> R) (zero : R)
  (A : matrix T1) (B : matrix T2) (C : matrix T3) :
  well_formed A -> well_formed B -> well_formed C ->
  (num_rows_ B, num_cols_ B) = (num_rows_ A, num_cols_ A) ->
  (num_rows_ C, num_cols_ C) = (num_rows_ A, num_cols_ A) ->
  exists M,
    materialise zero
      (s <- operator_plus plus (as_expr A) (as_expr B) ;;
       operator_minus minus s (as_expr C)) = Ok M
    /\ (num_rows_ M, num_cols_ M) = (num_rows_ A, num_cols_ A)
    /\ forall i j, i < num_rows_ A -> j < num_cols_ A ->
         exists a b c,
           matrix_at A i j = Ok a /\ matrix_at B i j = Ok b
           /\ matrix_at C i j = Ok c
           /\ matrix_at M i j = Ok (minus (plus a b) c).
Proof.
  intros HA HB HC HsB HsC.
  injection HsB as HBr HBc. injection HsC as HCr HCc.
  assert (Hcell : forall i j, i < num_rows_ A -> j < num_cols_ A ->
            exists a b c, matrix_at A i j = Ok a /\ matrix_at B i j = Ok b
                          /\ matrix_at C i j = Ok c).
  { intros i j Hi Hj.
    destruct (matrix_at_defined A i j HA Hi Hj) as [a Ha].
    destruct (matrix_at_defined B i j HB) as [b Hb]; [lia | lia |].
    destruct (matrix_at_defined C i j HC) as [c Hc]; [lia | lia |].
    exists a, b, c. repeat split; assumption. }
  unfold materialise, operator_plus, operator_minus, matrix_sum, matrix_sub.
  rewrite (same_shape_true (as_expr A) (as_expr B))
    by (simpl; congruence).
  cbn [bind assert].
  match goal with
  | |- context [assert ?b] =>
      replace b with true
        by (symmetry; cbn [num_rows num_cols as_expr];
            rewrite HCr, HCc, !N.eqb_refl; reflexivity)
  end.
  cbn [bind assert].
  match goal with
  | |- exists M, matrix_of_expr _ _ ?e = _ /\ _ =>
      destruct (matrix_of_expr_spec (fun x : R => x) zero e)
        as [M [Hrun [HMr [HMc [_ Hcells]]]]]
  end.
  - cbn [num_rows num_cols as_expr].
    destruct HA as [Hinv Hlen]. unfold storage_invariant in Hinv. lia.
  - cbn [num_rows num_cols as_expr at_]. intros i j Hi Hj.
    destruct (Hcell i j Hi Hj) as [a [b [c [Ha [Hb Hc]]]]].
    rewrite Ha, Hb, Hc. simpl. eexists. reflexivity.
  - exists M. cbn [num_rows num_cols as_expr at_] in *.
    split; [exact Hrun |]. split; [rewrite HMr, HMc; reflexivity |].
    intros i j Hi Hj.
    destruct (Hcell i j Hi Hj) as [a [b [c [Ha [Hb Hc]]]]].
    destruct (Hcells i j Hi Hj) as [x [Hx HM]].
    rewrite Ha, Hb, Hc in Hx. simpl in Hx. injection Hx as <-.
    exists a, b, c. repeat split; assumption.
Qed.

Lemma chain_sum_difference_witness :
  exists M,
    materialise 0%Z
      (s <- operator_plus CInt.add (as_expr A22) (as_expr B22) ;;
       operator_minus CInt.sub s (as_expr A22)) = Ok M
    /\ (num_rows_ M, num_cols_ M) = (num_rows_ A22, num_cols_ A22)
    /\ forall i j, i < num_rows_ A22 -> j < num_cols_ A22 ->
         exists a b c,
           matrix_at A22 i j = Ok a /\ matrix_at B22 i j = Ok b
           /\ matrix_at A22 i j = Ok c
           /\ matrix_at M i j = Ok (CInt.sub (CInt.add a b) c).
Proof.
  apply (chain_sum_difference CInt.add CInt.sub 0%Z A22 B22 A22);
    try (split; reflexivity); reflexivity.
Defined.

(** X10: for [int] stores [A] (m x k) and [B] (k x n) whose product has an
    element count that fits [size_t], materialising [A * B] gives the
    m x n store of the dot products of the rows of [A] with the columns of
    [B], summed in [int] arithmetic from [0]. *)
Theorem int_product_is_dot_product (A B : matrix int) :
  well_formed A -> well_formed B ->
  num_cols_ A = num_rows_ B ->
  num_rows_ A * num_cols_ B < SIZE_MODULUS ->
  exists P,
    materialise 0%Z
      (operator_times CInt.mul CInt.plus_assign (as_expr A) (as_expr B))
    = Ok P
    /\ num_rows_ P = num_rows_ A
    /\ num_cols_ P = num_cols_ B
    /\ forall i j, i < num_rows_ A -> j < num_cols_ B ->
         matrix_at P i j =
         Ok (dot_product_spec 0%Z CInt.add CInt.mul
               (fun t => entry 0%Z A i t) (fun t => entry 0%Z B t j)
               (num_cols_ A)).
Proof. apply matrix_prod_int_correct. Qed.

Lemma int_product_is_dot_product_witness :
  exists P,
    materialise 0%Z
      (operator_times CInt.mul CInt.plus_assign (as_expr A22) (as_expr B22))
    = Ok P
    /\ num_rows_ P = num_rows_ A22
    /\ num_cols_ P = num_cols_ B22
    /\ forall i j, i < num_rows_ A22 -> j < num_cols_ B22 ->
         matrix_at P i j =
         Ok (dot_product_spec 0%Z CInt.add CInt.mul
               (fun t => entry 0%Z A22 i t) (fun t => entry 0%Z B22 t j)
               (num_cols_ A22)).
Proof.
  apply (int_product_is_dot_product A22 B22);
    try (split; reflexivity); reflexivity.
Defined.

(** X11: a Product node whose shared dimension is [0] never looks at its
    operands: whatever they are, every coordinate evaluates to the seed [0]
    of the accumulator, and the node materialises to a store filled with
    the conversion of [0]. *)
Theorem empty_shared_dimension {V1 V2 R T : Type} (times : V1 -> V2 -> R)
  (plus_assign : int -> R -> int) (static_cast_T : int -> T) (zero : T)
  (lhs : matrix_expr V1) (rhs : matrix_expr V2) :
  num_cols lhs = 0 -> num_rows rhs = 0 ->
  num_rows lhs * num_cols rhs < SIZE_MODULUS ->
  exists M,
    (p <- operator_times times plus_assign lhs rhs ;;
     matrix_of_expr static_cast_T zero p) = Ok M
    /\ num_rows_ M = num_rows lhs
    /\ num_cols_ M = num_cols rhs
    /\ forall i j, i < num_rows lhs -> j < num_cols rhs ->
                   matrix_at M i j = Ok (static_cast_T 0%Z).
Proof.
  intros Hl Hr Hfit. unfold operator_times, matrix_prod.
  rewrite Hl, Hr. cbn [N.eqb assert bind].
  match goal with
  | |- exists M, matrix_of_expr _ _ ?e = _ /\ _ =>
      destruct (matrix_of_expr_spec static_cast_T zero e)
        as [M [Hrun [HMr [HMc [_ Hcells]]]]]
  end.
  - exact Hfit.
  - intros i j _ _. exists 0%Z. reflexivity.
  - exists M. cbn [num_rows num_cols at_] in *.
    split; [exact Hrun |]. split; [exact HMr |]. split; [exact HMc |].
    intros i j Hi Hj. destruct (Hcells i j Hi Hj) as [x [Hx HM]].
    change (Ok 0%Z = Ok x) in Hx. injection Hx as <-. exact HM.
Qed.

Lemma empty_shared_dimension_witness :
  exists M,
    (p <- operator_times CInt.mul CInt.plus_assign
            (stub int 2 0) (stub int 0 3) ;;
     matrix_of_expr CLongLong.of_int 0%Z p) = Ok M
    /\ num_rows_ M = num_rows (stub int 2 0)
    /\ num_cols_ M = num_cols (stub int 0 3)
    /\ forall i j, i < num_rows (stub int 2 0) ->
                   j < num_cols (stub int 0 3) ->
                   matrix_at M i j = Ok (CLongLong.of_int 0%Z).
Proof.
  apply (empty_shared_dimension CInt.mul CInt.plus_assign CLongLong.of_int
           0%Z (stub int 2 0) (stub int 0 3)); reflexivity.
Defined.

(** ** Printing a deferred expression *)



(** X13: printing an expression one of whose in-range coordinates fails
    (a failed assertion or an undefined lookup) fails as well: the call
    does not return. *)
Theorem print_fails_with_coordinate {V : Type} (show : V -> string)
  (stream : string) (expr : matrix_expr V) (i j : size_t) :
  i < num_rows expr -> j < num_cols expr ->
  at_ expr i j = Abort \/ at_ expr i j = Undef ->
  print_expr show stream expr = Abort \/ print_expr show stream expr = Undef.
Proof.
  intros Hi Hj Hfail.
  destruct (print_expr show stream expr) as [text | |] eqn:Hrun;
    [exfalso | left; reflexivity | right; reflexivity].
  unfold print_expr in Hrun.
  destruct (N.eqb_spec (num_rows expr) 0) as [E | _]; [lia |].
  destruct (for_upto_ok_inv (fun _ : string => True) _ _ _ _
              (fun _ _ _ _ _ => I) Hrun I i Hi) as [s [s' [_ Hrow]]].
  apply bind_ok in Hrow. destruct Hrow as [t [Hinner _]].
  destruct (for_upto_ok_inv (fun _ : string => True) _ _ _ _
              (fun _ _ _ _ _ => I) Hinner I j Hj) as [u [u' [_ Hcell]]].
  apply bind_ok in Hcell. destruct Hcell as [v [Hv _]].
  rewrite Hv in Hfail. destruct Hfail; discriminate.
Qed.

Lemma print_fails_with_coordinate_witness :
  print_expr CInt.show EmptyString (stub int 2 2) = Abort
  \/ print_expr CInt.show EmptyString (stub int 2 2) = Undef.
Proof.
  apply (print_fails_with_coordinate CInt.show EmptyString (stub int 2 2)
           1 1); try reflexivity.
  right. reflexivity.
Defined.

(** ** The demonstration program *)

(** X14: [main] runs to its end with no failed assertion and no
    out-of-range access.  Its two generated 20x20 matrices hold
    [17 - 3k] and [11k - 1169] at linear position [k]; what it prints for
    them is their row-major rendering under the headers; the four
    assignments to [c] give 20x20 stores that hold the exact integer sum,
    difference, multiple by 123 and matrix product, so that no [int]
    result is out of range. *)
Theorem main_runs_to_completion :
  exists run,
    main = Ok run
    /\ printed run
       = (String "A" newline
          ++ render_spec CInt.show
               (fun i j => a_exact (20 * Z.of_N i + Z.of_N j)) 20 20
          ++ String "B" newline
          ++ render_spec CInt.show
               (fun i j => b_exact (20 * Z.of_N i + Z.of_N j)) 20 20)%string
    /\ c_sum run
       = {| num_rows_ := 20; num_cols_ := 20;
            matrix_ := map (fun k => a_exact k + b_exact k)%Z
                         (Z_range 400) |}
    /\ c_difference run
       = {| num_rows_ := 20; num_cols_ := 20;
            matrix_ := map (fun k => a_exact k - b_exact k)%Z
                         (Z_range 400) |}
    /\ c_scaled run
       = {| num_rows_ := 20; num_cols_ := 20;
            matrix_ := map (fun k => 123 * a_exact k)%Z (Z_range 400) |}
    /\ c_product run
       = {| num_rows_ := 20; num_cols_ := 20;
            matrix_ := map product_exact (Z_range 400) |}.
Proof.
  eexists. split; [vm_compute; reflexivity |].
  repeat split; vm_compute; reflexivity.
Qed.
